(** * SPI bus arbitration and the buffered display transfer pipeline

    A shallow embedding of two pieces of the firmware:

    - [SPIArbiter::apply] (platform/spark/modules/SPIArbiter/SPIArbiter.cpp),
      which reconfigures the shared SPI peripheral for a client and hands the
      chip-select line over;
    - the double-buffered DMA pipeline of the eGUI low level LCD driver
      (d4dlcdhw_spi_spark_8b.cpp).

    C++ members and file-scope statics become record fields and every function
    becomes a state transformer.  The calls made into the peripheral and the
    GPIO layer are also appended to a log kept in the state, so that the order
    of hardware calls can be stated. *)

From Stdlib Require Import ZArith Lia.
From stdpp Require Import base decidable option list gmap.

Local Open Scope Z_scope.

(** Electrical level of a GPIO pin, the second argument of [digitalWrite]. *)
Inductive level := LOW | HIGH.

#[global] Instance level_eq_dec : EqDecision level.
Proof. solve_decision. Defined.

(** The part of a log written by a step: what [after] holds beyond the
    [n] entries that were there before. *)
Definition emitted {A} (before after : list A) : list A :=
  drop (length before) after.

(* ===================================================================== *)
(** ** The bus arbiter *)
(* ===================================================================== *)

Module Arbiter.

(** Modelled from the spec: SPIArbiter.h is not among the sources.  The bit
    order of a bus configuration is one of two values, MSB-first or
    LSB-first. *)
Inductive bit_order := LSBFIRST | MSBFIRST.

#[global] Instance bit_order_eq_dec : EqDecision bit_order.
Proof. solve_decision. Defined.

(** Modelled from the spec: SPIArbiter.h is not among the sources.  What a
    client declares: clock mode, bit order, clock divider and its select
    pin, read by [apply] through the four getters. *)
Record SPIConfiguration := {
  getMode : Z;
  getBitOrder : bit_order;
  getClockDivider : Z;
  getSSPin : Z
}.

(** The registers of the peripheral behind [spi_]. *)
Record SPIClass := {
  dataMode : Z;
  bitOrder : bit_order;
  clockDivider : Z
}.

(** The calls [apply] makes into the peripheral and the GPIO layer. *)
Inductive hw_call :=
| SetDataMode (m : Z)
| SetBitOrder (b : bit_order)
| SetClockDivider (d : Z)
| DigitalWrite (pin : Z) (l : level).

#[global] Instance hw_call_eq_dec : EqDecision hw_call.
Proof. solve_decision. Defined.

(** The arbiter: its four members, then the world it acts on, the
    peripheral [spi_], the level last driven on each pin and the log of
    hardware calls (oldest first). *)
Record SPIArbiter := {
  mode_ : Z;
  bitOrder_ : bit_order;
  clockDivider_ : Z;
  ss_pin_ : Z;
  spi_ : SPIClass;
  gpio : gmap Z level;
  calls : list hw_call
}.

(** The "no selection" value of a select pin. *)
Definition NO_PIN : Z := 255.

(** Assignments to the members. *)
Definition set_mode_ (m : Z) (a : SPIArbiter) : SPIArbiter :=
  {| mode_ := m; bitOrder_ := bitOrder_ a; clockDivider_ := clockDivider_ a;
     ss_pin_ := ss_pin_ a; spi_ := spi_ a; gpio := gpio a; calls := calls a |}.

Definition set_bitOrder_ (b : bit_order) (a : SPIArbiter) : SPIArbiter :=
  {| mode_ := mode_ a; bitOrder_ := b; clockDivider_ := clockDivider_ a;
     ss_pin_ := ss_pin_ a; spi_ := spi_ a; gpio := gpio a; calls := calls a |}.

Definition set_clockDivider_ (d : Z) (a : SPIArbiter) : SPIArbiter :=
  {| mode_ := mode_ a; bitOrder_ := bitOrder_ a; clockDivider_ := d;
     ss_pin_ := ss_pin_ a; spi_ := spi_ a; gpio := gpio a; calls := calls a |}.

(** A call into the world: the new peripheral registers and pin levels, and
    the call appended to the log. *)
Definition hw (s : SPIClass) (g : gmap Z level) (c : hw_call) (a : SPIArbiter)
  : SPIArbiter :=
  {| mode_ := mode_ a; bitOrder_ := bitOrder_ a;
     clockDivider_ := clockDivider_ a; ss_pin_ := ss_pin_ a;
     spi_ := s; gpio := g; calls := calls a ++ [c] |}.

Definition setDataMode (m : Z) (a : SPIArbiter) : SPIArbiter :=
  hw {| dataMode := m; bitOrder := bitOrder (spi_ a);
        clockDivider := clockDivider (spi_ a) |}
     (gpio a) (SetDataMode m) a.

Definition setBitOrder (b : bit_order) (a : SPIArbiter) : SPIArbiter :=
  hw {| dataMode := dataMode (spi_ a); bitOrder := b;
        clockDivider := clockDivider (spi_ a) |}
     (gpio a) (SetBitOrder b) a.

Definition setClockDivider (d : Z) (a : SPIArbiter) : SPIArbiter :=
  hw {| dataMode := dataMode (spi_ a); bitOrder := bitOrder (spi_ a);
        clockDivider := d |}
     (gpio a) (SetClockDivider d) a.

Definition digitalWrite (pin : Z) (l : level) (a : SPIArbiter) : SPIArbiter :=
  hw (spi_ a) (<[pin := l]> (gpio a)) (DigitalWrite pin l) a.

(** [SPIArbiter::apply], statement by statement.  No statement assigns
    [ss_pin_]. *)
Definition apply (client : SPIConfiguration) (a : SPIArbiter) : SPIArbiter :=
  let a :=
    if decide (mode_ a ≠ getMode client) then
      let a := set_mode_ (getMode client) a in
      setDataMode (mode_ a) a
    else a in
  let a :=
    if decide (bitOrder_ a ≠ getBitOrder client) then
      let a := set_bitOrder_ (getBitOrder client) a in
      setBitOrder (bitOrder_ a) a
    else a in
  let a :=
    if decide (clockDivider_ a ≠ getClockDivider client) then
      let a := set_clockDivider_ (getClockDivider client) a in
      setClockDivider (clockDivider_ a) a
    else a in
  let a :=
    if decide (ss_pin_ a ≠ 255) then
      digitalWrite (ss_pin_ a) HIGH a (* unselect previous client *)
    else a in
  digitalWrite (getSSPin client) LOW a. (* select new client *)

(** A run of accesses by any clients, in order. *)
Definition apply_all (clients : list SPIConfiguration) (a : SPIArbiter)
  : SPIArbiter :=
  foldl (λ a c, apply c a) a clients.

(** Modelled from the spec: the constructor is in SPIArbiter.h, not among
    the sources.  The arbiter as it starts: the stored select pin is the
    "no selection" value, no pin has been driven, and the stored electrical
    fields [m], [b], [d] are those of the peripheral. *)
Definition initial (m : Z) (b : bit_order) (d : Z) : SPIArbiter :=
  {| mode_ := m; bitOrder_ := b; clockDivider_ := d; ss_pin_ := NO_PIN;
     spi_ := {| dataMode := m; bitOrder := b; clockDivider := d |};
     gpio := ∅; calls := [] |}.

(** An arbiter whose stored select pin is [pin], with that line asserted;
    the stored electrical fields are those of the peripheral. *)
Definition selected (pin : Z) : SPIArbiter :=
  {| mode_ := 0; bitOrder_ := MSBFIRST; clockDivider_ := 128; ss_pin_ := pin;
     spi_ := {| dataMode := 0; bitOrder := MSBFIRST; clockDivider := 128 |};
     gpio := {[pin := LOW]}; calls := [] |}.

(** A select line is asserted when it is driven low. *)
Definition asserted (a : SPIArbiter) (pin : Z) : Prop :=
  gpio a !! pin = Some LOW.

#[global] Instance asserted_dec a pin : Decision (asserted a pin).
Proof. unfold asserted. apply _. Defined.

(** At most one select line is asserted. *)
Definition mutual_exclusion (a : SPIArbiter) : Prop :=
  ∀ p q, asserted a p → asserted a q → p = q.

(** The stored state and the peripheral agree with a client's declared
    configuration, its line is the asserted one and no other is. *)
Definition matches (c : SPIConfiguration) (a : SPIArbiter) : Prop :=
  mode_ a = getMode c ∧ bitOrder_ a = getBitOrder c ∧
  clockDivider_ a = getClockDivider c ∧ ss_pin_ a = getSSPin c ∧
  dataMode (spi_ a) = getMode c ∧ bitOrder (spi_ a) = getBitOrder c ∧
  clockDivider (spi_ a) = getClockDivider c ∧
  asserted a (getSSPin c) ∧ ∀ p, p ≠ getSSPin c → ¬ asserted a p.

(** The calls that reconfigure the peripheral, as opposed to pin writes. *)
Definition is_electrical (c : hw_call) : bool :=
  match c with
  | SetDataMode _ | SetBitOrder _ | SetClockDivider _ => true
  | DigitalWrite _ _ => false
  end.

(** A pin write that releases a select line. *)
Definition is_deassert (c : hw_call) : Prop :=
  ∃ pin, c = DigitalWrite pin HIGH.

(** The two clients of the hand-over scenario. *)
Definition clientX : SPIConfiguration :=
  {| getMode := 0; getBitOrder := MSBFIRST; getClockDivider := 32;
     getSSPin := 7 |}.

Definition clientY : SPIConfiguration :=
  {| getMode := 3; getBitOrder := LSBFIRST; getClockDivider := 64;
     getSSPin := 9 |}.

(** The calls of one [apply] listed test by test, in the order of its
    statements; lemma [apply_log] below shows that these are the calls
    [apply] logs. *)
Definition apply_calls (c : SPIConfiguration) (a : SPIArbiter) : list hw_call :=
  (if decide (mode_ a ≠ getMode c) then [SetDataMode (getMode c)] else []) ++
  (if decide (bitOrder_ a ≠ getBitOrder c) then [SetBitOrder (getBitOrder c)] else []) ++
  (if decide (clockDivider_ a ≠ getClockDivider c)
   then [SetClockDivider (getClockDivider c)] else []) ++
  (if decide (ss_pin_ a ≠ 255) then [DigitalWrite (ss_pin_ a) HIGH] else []) ++
  [DigitalWrite (getSSPin c) LOW].

(** The stored electrical fields are those the peripheral is set to. *)
Definition in_sync (a : SPIArbiter) : Prop :=
  spi_ a = {| dataMode := mode_ a; bitOrder := bitOrder_ a;
              clockDivider := clockDivider_ a |}.

End Arbiter.

(* ===================================================================== *)
(** ** The buffered display driver *)
(* ===================================================================== *)

Module Lcd.

Definition SCREEN_DATA_BUFFER_SIZE : Z := 320.

(** Modelled from the spec: the enumeration [D4DLCD_FLUSH_MODE] is declared
    in the eGUI headers, not among the sources.  The driver names two of its
    values; any further value is kept with its number. *)
Inductive D4DLCD_FLUSH_MODE :=
| D4DLCD_FLSH_SCR_END
| D4DLCD_FLSH_FORCE
| D4DLCD_FLSH_other (n : Z).

#[global] Instance flush_mode_eq_dec : EqDecision D4DLCD_FLUSH_MODE.
Proof. solve_decision. Defined.

(** A transfer owned by the DMA engine: the buffer it reads, the number of
    bytes, and the instants it still needs before its completion interrupt
    is raised. *)
Record dma_job := {
  job_buffer : Z;
  job_length : Z;
  job_left : nat
}.

(** What the driver does to the hardware, and what the hardware does back. *)
Inductive hw_event :=
| PinCS (l : level)                 (* D4DLCD_ASSERT_CS / D4DLCD_DEASSERT_CS *)
| PinDC (l : level)                 (* D4DLCD_ASSERT_DC / D4DLCD_DEASSERT_DC *)
| Status (ongoing : bool)           (* HAL_SPI_DMA_Transfer_Status *)
| DmaTransfer (idx : Z) (data : list Z) (len : Z)
                                    (* SPI.transfer(tx, NULL, length, cb) *)
| DmaComplete (idx : Z)             (* completion interrupt of a transfer *)
| Transfer (w : Z).                 (* SPI.transfer(word), synchronous *)

#[global] Instance hw_event_eq_dec : EqDecision hw_event.
Proof. solve_decision. Defined.

(** The file-scope statics of the driver, then the hardware: the queue of
    transfers the DMA engine owns (oldest first), the durations of the
    transfers still to be started, the levels of the chip-select and
    data/command lines, and the log of events (oldest first). *)
Record driver := {
  tx_buffer : list (list Z);
  active_buffer_idx : Z;
  active_buffer_offset : Z;
  dma_buffer_idx : Z;
  dma : list dma_job;
  latencies : list nat;
  cs : level;
  dc : level;
  log : list hw_event
}.

Definition set_tx_buffer (b : list (list Z)) (s : driver) : driver :=
  {| tx_buffer := b; active_buffer_idx := active_buffer_idx s;
     active_buffer_offset := active_buffer_offset s;
     dma_buffer_idx := dma_buffer_idx s; dma := dma s;
     latencies := latencies s; cs := cs s; dc := dc s; log := log s |}.

Definition set_active_buffer_idx (i : Z) (s : driver) : driver :=
  {| tx_buffer := tx_buffer s; active_buffer_idx := i;
     active_buffer_offset := active_buffer_offset s;
     dma_buffer_idx := dma_buffer_idx s; dma := dma s;
     latencies := latencies s; cs := cs s; dc := dc s; log := log s |}.

Definition set_active_buffer_offset (o : Z) (s : driver) : driver :=
  {| tx_buffer := tx_buffer s; active_buffer_idx := active_buffer_idx s;
     active_buffer_offset := o;
     dma_buffer_idx := dma_buffer_idx s; dma := dma s;
     latencies := latencies s; cs := cs s; dc := dc s; log := log s |}.

Definition set_dma_buffer_idx (i : Z) (s : driver) : driver :=
  {| tx_buffer := tx_buffer s; active_buffer_idx := active_buffer_idx s;
     active_buffer_offset := active_buffer_offset s;
     dma_buffer_idx := i; dma := dma s;
     latencies := latencies s; cs := cs s; dc := dc s; log := log s |}.

Definition set_dma (q : list dma_job) (s : driver) : driver :=
  {| tx_buffer := tx_buffer s; active_buffer_idx := active_buffer_idx s;
     active_buffer_offset := active_buffer_offset s;
     dma_buffer_idx := dma_buffer_idx s; dma := q;
     latencies := latencies s; cs := cs s; dc := dc s; log := log s |}.

Definition set_latencies (l : list nat) (s : driver) : driver :=
  {| tx_buffer := tx_buffer s; active_buffer_idx := active_buffer_idx s;
     active_buffer_offset := active_buffer_offset s;
     dma_buffer_idx := dma_buffer_idx s; dma := dma s;
     latencies := l; cs := cs s; dc := dc s; log := log s |}.

Definition set_cs (l : level) (s : driver) : driver :=
  {| tx_buffer := tx_buffer s; active_buffer_idx := active_buffer_idx s;
     active_buffer_offset := active_buffer_offset s;
     dma_buffer_idx := dma_buffer_idx s; dma := dma s;
     latencies := latencies s; cs := l; dc := dc s; log := log s |}.

Definition set_dc (l : level) (s : driver) : driver :=
  {| tx_buffer := tx_buffer s; active_buffer_idx := active_buffer_idx s;
     active_buffer_offset := active_buffer_offset s;
     dma_buffer_idx := dma_buffer_idx s; dma := dma s;
     latencies := latencies s; cs := cs s; dc := l; log := log s |}.

Definition record (e : hw_event) (s : driver) : driver :=
  {| tx_buffer := tx_buffer s; active_buffer_idx := active_buffer_idx s;
     active_buffer_offset := active_buffer_offset s;
     dma_buffer_idx := dma_buffer_idx s; dma := dma s;
     latencies := latencies s; cs := cs s; dc := dc s;
     log := log s ++ [e] |}.

(** Modelled from the spec: the pin macros are defined in the driver's
    header, not among the sources.  Asserting a line drives it low,
    deasserting drives it high (DataCmd := 0 is command, 1 is data). *)
Definition D4DLCD_ASSERT_CS (s : driver) : driver := record (PinCS LOW) (set_cs LOW s).
Definition D4DLCD_DEASSERT_CS (s : driver) : driver := record (PinCS HIGH) (set_cs HIGH s).
Definition D4DLCD_ASSERT_DC (s : driver) : driver := record (PinDC LOW) (set_dc LOW s).
Definition D4DLCD_DEASSERT_DC (s : driver) : driver := record (PinDC HIGH) (set_dc HIGH s).

(** [tx_buffer[i]], defined for the rows that exist. *)
Definition buffer_at (s : driver) (i : Z) : option (list Z) :=
  if decide (0 ≤ i) then tx_buffer s !! Z.to_nat i else None.

(** The bytes a transfer of [len] bytes from row [i] puts on the bus. *)
Definition bytes_of (s : driver) (i len : Z) : list Z :=
  take (Z.to_nat len) (default [] (buffer_at s i)).

(** The bytes appended to the active buffer and not handed over yet. *)
Definition pending (s : driver) : list Z :=
  bytes_of s (active_buffer_idx s) (active_buffer_offset s).

(** Determines if there is data to send. *)
Definition hasPendingDataToSend (s : driver) : Z := active_buffer_offset s.

(** Notification that the DMA transfer was complete. *)
Definition transferComplete (s : driver) : driver :=
  let s := D4DLCD_DEASSERT_CS s in
  set_dma_buffer_idx (-1) s.

(** One instant of hardware time.  The oldest transfer of the engine gets
    an instant closer to its end; when it has none left the engine drops it
    and raises the completion interrupt, which runs the callback registered
    with the transfer, [transferComplete]. *)
Definition tick (s : driver) : driver :=
  match dma s with
  | [] => s
  | j :: q =>
      match job_left j with
      | O => transferComplete (record (DmaComplete (job_buffer j)) (set_dma q s))
      | S n =>
          set_dma ({| job_buffer := job_buffer j; job_length := job_length j;
                      job_left := n |} :: q) s
      end
  end.

(** The instants after which the engine is certainly idle. *)
Definition time_left (s : driver) : nat :=
  sum_list ((λ j, S (job_left j)) <$> dma s).

(** [HAL_SPI_DMA_Transfer_Status]: the call takes an instant, then reports
    whether the engine still owns a transfer. *)
Definition HAL_SPI_DMA_Transfer_Status (s : driver) : bool * driver :=
  let s := tick s in
  let ongoing := bool_decide (dma s ≠ []) in
  (ongoing, record (Status ongoing) s).

(** The loop of [waitForTransferToComplete]: poll, and poll again while the
    status reads ongoing.  [n] bounds the number of polls. *)
Fixpoint poll (n : nat) (s : driver) : driver :=
  match n with
  | O => s
  | S n =>
      let '(transfer_ongoing, s) := HAL_SPI_DMA_Transfer_Status s in
      if transfer_ongoing then poll n s else s
  end.

(** Waits for the asynchronous transfer to complete.  Every transfer ends
    after finitely many instants, so [time_left] polls and one more always
    reach the poll that reads idle (lemma [wait_idle] below). *)
Definition waitForTransferToComplete (s : driver) : driver :=
  poll (S (time_left s)) s.

(** [SPI.transfer(tx_buffer[idx], NULL, length, transferComplete)]: the
    engine takes the transfer, with the next duration the hardware has in
    store, and the call itself takes an instant, so that a transfer of
    duration 0 is already over when the call returns.  The event logged
    carries the bytes the row holds when it is handed over. *)
Definition SPI_transfer_dma (idx len : Z) (s : driver) : driver :=
  let s := record (DmaTransfer idx (bytes_of s idx len) len) s in
  let job := {| job_buffer := idx; job_length := len;
                job_left := default O (head (latencies s)) |} in
  let s := set_latencies (tail (latencies s)) (set_dma (dma s ++ [job]) s) in
  tick s.

(** [SPI.transfer(word)]: one word sent while the caller waits. *)
Definition SPI_transfer (w : Z) (s : driver) : driver := record (Transfer w) s.

Definition scheduleTransfer (tx_buffer_idx length : Z) (s : driver) : driver :=
  let s := waitForTransferToComplete s in
  let s := D4DLCD_ASSERT_CS s in
  let s := set_dma_buffer_idx tx_buffer_idx s in
  SPI_transfer_dma tx_buffer_idx length s.

(** Ensures any pending data to send to the device is flushed
    asynchronously.  [(active_buffer_idx + 1) & 0x1] is 0 or 1 and fits the
    [int8_t] it is stored in. *)
Definition flushData (s : driver) : driver :=
  if decide (hasPendingDataToSend s ≠ 0) then
    let s := scheduleTransfer (active_buffer_idx s) (active_buffer_offset s) s in
    let new_active_idx := Z.land (active_buffer_idx s + 1) 1 in
    let s :=
      if decide (new_active_idx = dma_buffer_idx s) then
        waitForTransferToComplete s
      else s in
    let s := set_active_buffer_offset 0 s in
    set_active_buffer_idx new_active_idx s
  else s.

(** [tx_buffer[active_buffer_idx][active_buffer_offset++] = value]: the
    16-bit [value] is narrowed to the [uint8_t] cell, the [uint16_t] offset
    is incremented.  A store outside the two rows of
    [SCREEN_DATA_BUFFER_SIZE] cells has no defined behaviour: [None]. *)
Definition store_word (value : Z) (s : driver) : option driver :=
  let i := active_buffer_idx s in
  let j := active_buffer_offset s in
  if decide ((0 ≤ i < 2) ∧ (0 ≤ j < SCREEN_DATA_BUFFER_SIZE)) then
    let b := alter (λ row, <[Z.to_nat j := value mod 256]> row) (Z.to_nat i)
                   (tx_buffer s) in
    Some (set_active_buffer_offset ((j + 1) mod 65536) (set_tx_buffer b s))
  else None.

Definition D4DLCDHW_SendDataWord_Spi_Spark_8b (value : Z) (s : driver)
  : option driver :=
  s ← store_word value s;
  Some (if decide (active_buffer_offset s >= SCREEN_DATA_BUFFER_SIZE) then
          flushData s
        else s).

Definition D4DLCDHW_SendCmdWord_Spi_Spark_8b (cmd : Z) (s : driver) : driver :=
  let s := flushData s in
  let s := waitForTransferToComplete s in
  let s := D4DLCD_ASSERT_DC s in (* DataCmd := 0 *)
  let s := D4DLCD_ASSERT_CS s in
  let s := SPI_transfer cmd s in
  let s := D4DLCD_DEASSERT_CS s in
  D4DLCD_DEASSERT_DC s. (* DataCmd := 1 *)

Definition D4DLCD_FlushBuffer_Spi_Spark_8b (mode : D4DLCD_FLUSH_MODE)
  (s : driver) : driver :=
  if true || bool_decide (mode = D4DLCD_FLSH_SCR_END)
          || bool_decide (mode = D4DLCD_FLSH_FORCE) then
    flushData s
  else s.

(** What happens to the driver: the three calls of the low level API that
    send or flush, and an instant passing with the foreground elsewhere. *)
Inductive op :=
| SendDataWord (value : Z)
| SendCmdWord (cmd : Z)
| FlushBuffer (mode : D4DLCD_FLUSH_MODE)
| Elapse.

Definition step (o : op) (s : driver) : option driver :=
  match o with
  | SendDataWord value => D4DLCDHW_SendDataWord_Spi_Spark_8b value s
  | SendCmdWord cmd => Some (D4DLCDHW_SendCmdWord_Spi_Spark_8b cmd s)
  | FlushBuffer mode => Some (D4DLCD_FlushBuffer_Spi_Spark_8b mode s)
  | Elapse => Some (tick s)
  end.

Fixpoint run (ops : list op) (s : driver) : option driver :=
  match ops with
  | [] => Some s
  | o :: ops => s ← step o s; run ops s
  end.

(** The statics as their definitions initialise them, on idle hardware with
    both lines as [D4DLCDHW_Init_Spi_Spark_8b] leaves them and [lat] the
    durations of the transfers to come. *)
Definition initial (lat : list nat) : driver :=
  {| tx_buffer := replicate 2 (replicate (Z.to_nat SCREEN_DATA_BUFFER_SIZE) 0);
     active_buffer_idx := 0;
     active_buffer_offset := 0;
     dma_buffer_idx := -1;
     dma := []; latencies := lat; cs := HIGH; dc := LOW; log := [] |}.

(** The buffers the engine owns after a log of events. *)
Definition inflight_step (q : list Z) (e : hw_event) : list Z :=
  match e with
  | DmaTransfer idx _ _ => q ++ [idx]
  | DmaComplete _ => tail q
  | _ => q
  end.

Definition inflight (l : list hw_event) : list Z := foldl inflight_step [] l.

(** The asynchronous transfers started in a log: buffer, bytes, length. *)
Definition dma_transfers (l : list hw_event) : list (Z * list Z * Z) :=
  omap (λ e, match e with
             | DmaTransfer idx data len => Some (idx, data, len)
             | _ => None
             end) l.

(** The data words among a list of operations, in order. *)
Definition data_words (ops : list op) : list Z :=
  omap (λ o, match o with SendDataWord w => Some w | _ => None end) ops.

Definition is_flush_free (o : op) : bool :=
  match o with
  | SendDataWord _ | Elapse => true
  | SendCmdWord _ | FlushBuffer _ => false
  end.

(** Events of the hardware going on by itself and of the driver watching
    it: polls that read ongoing, completion interrupts and the release of
    chip select by the completion callback. *)
Definition background (e : hw_event) : Prop :=
  match e with
  | Status true | DmaComplete _ | PinCS HIGH => True
  | _ => False
  end.

(** The start of an asynchronous transfer. *)
Definition is_start (e : hw_event) : Prop :=
  match e with DmaTransfer _ _ _ => True | _ => False end.

(** A transfer may be handed to the engine when the engine owns none and
    the last two things that happened are a poll that read idle and the
    assertion of chip select. *)
Definition start_guarded (l : list hw_event) (e : hw_event) : Prop :=
  match e with
  | DmaTransfer _ _ _ =>
      inflight l = [] ∧ [Status false; PinCS LOW] `suffix_of` l
  | _ => True
  end.

(** A log in which every transfer was started that way. *)
Inductive guarded : list hw_event → Prop :=
| guarded_nil : guarded []
| guarded_snoc l e : guarded l → start_guarded l e → guarded (l ++ [e]).

(** The log and the engine agree, and the log is guarded. *)
Definition hw_ok (s : driver) : Prop :=
  guarded (log s) ∧ inflight (log s) = job_buffer <$> dma s.

(** Two rows of [SCREEN_DATA_BUFFER_SIZE] cells, the active row is one of
    them and its fill offset is below the capacity. *)
Definition sw_ok (s : driver) : Prop :=
  length <$> tx_buffer s =
    [Z.to_nat SCREEN_DATA_BUFFER_SIZE; Z.to_nat SCREEN_DATA_BUFFER_SIZE] ∧
  0 ≤ active_buffer_idx s < 2 ∧
  0 ≤ active_buffer_offset s < SCREEN_DATA_BUFFER_SIZE.

(** The cell [tx_buffer[i][j]], for the cells that exist. *)
Definition cell (s : driver) (i j : Z) : option Z :=
  row ← buffer_at s i;
  if decide (0 ≤ j) then row !! Z.to_nat j else None.

(** The bytes handed to the engine in a log, in order. *)
Definition sent_bytes (l : list hw_event) : list Z :=
  l ≫= λ e, match e with DmaTransfer _ data _ => data | _ => [] end.

(** All bytes the driver has taken so far: those handed to the engine, then
    those still pending in the active row. *)
Definition stream (s : driver) : list Z := sent_bytes (log s) ++ pending s.

(** What holds of the driver between any two operations. *)
Definition inv (s : driver) : Prop := sw_ok s ∧ hw_ok s.

(** The engine is idle, and the driver's in-flight index and the chip
    select say so. *)
Definition engine_idle (s : driver) : Prop :=
  dma s = [] ∧ dma_buffer_idx s = -1 ∧ cs s = HIGH.

(** The engine owns row [i] and nothing else, and the driver's in-flight
    index and the chip select say so. *)
Definition engine_busy_with (s : driver) (i : Z) : Prop :=
  ∃ j, dma s = [j] ∧ job_buffer j = i ∧ dma_buffer_idx s = i ∧ cs s = LOW.

(** The engine is idle or owns row [i]. *)
Definition engine_at (s : driver) (i : Z) : Prop :=
  engine_idle s ∨ engine_busy_with s i.

(** Either of the two, the row owned not being the active row. *)
Definition engine_ok (s : driver) : Prop :=
  engine_idle s ∨ ∃ i, engine_busy_with s i ∧ i ≠ active_buffer_idx s.




(** A transfer reads one of the two rows, is not empty, is not longer than
    a row, and carries as many bytes as its length says. *)
Definition transfer_ok (t : Z * list Z * Z) : Prop :=
  0 ≤ t.1.1 < 2 ∧ 1 ≤ t.2 ≤ SCREEN_DATA_BUFFER_SIZE ∧
  Z.of_nat (length t.1.2) = t.2.

(** The levels written to chip select in a log, in order. *)
Definition cs_trace (l : list hw_event) : list level :=
  omap (λ e, match e with PinCS lv => Some lv | _ => None end) l.

Definition toggle (lv : level) : level :=
  match lv with LOW => HIGH | HIGH => LOW end.

(** A history of chip-select writes and the level it leaves: the line
    starts high and every write changes its level. *)
Inductive cs_history : list level → level → Prop :=
| cs_history_start : cs_history [] HIGH
| cs_history_write h lv :
    cs_history h lv → cs_history (h ++ [toggle lv]) (toggle lv).

(** The engine is idle or owns row [i], the driver's view agrees, and the
    chip-select writes so far form a history that leaves the line as it
    is. *)
Definition selects (s : driver) (i : Z) : Prop :=
  engine_at s i ∧ cs_history (cs_trace (log s)) (cs s).

End Lcd.

(* ===================================================================== *)
(** ** The temperature sensor wrapper *)
(* ===================================================================== *)

Module Sensor.

(** A [TempSensorBasic *].  defaultDevices.h is not among the sources: the
    default sensor is taken as one object that is not on the heap, every
    other sensor as an object on the heap at some address. *)
Inductive sensor_ptr :=
| defaultTempSensorBasic
| heap_sensor (addr : nat).

#[global] Instance sensor_ptr_eq_dec : EqDecision sensor_ptr.
Proof. solve_decision. Defined.

(** The member [sensor] of a [TempSensor], and the heap it lives with: the
    addresses of the sensors allocated and not deleted. *)
Record TempSensor := {
  sensor : sensor_ptr;
  live : gset nat
}.

(** The heap object a pointer owns, if any. *)
Definition owned (p : sensor_ptr) : gset nat :=
  match p with
  | defaultTempSensorBasic => ∅
  | heap_sensor addr => {[addr]}
  end.

(** [delete p]: the object leaves the heap.  Deleting what is not a live
    heap object has no defined behaviour: [None]. *)
Definition delete (p : sensor_ptr) (t : TempSensor) : option TempSensor :=
  match p with
  | defaultTempSensorBasic => None
  | heap_sensor addr =>
      if decide (addr ∈ live t) then
        Some {| sensor := sensor t; live := live t ∖ {[addr]} |}
      else None
  end.

Definition set_sensor (p : sensor_ptr) (t : TempSensor) : TempSensor :=
  {| sensor := p; live := live t |}.

(** The two constructors, on a heap [h]. *)
Definition TempSensor_default (h : gset nat) : TempSensor :=
  {| sensor := defaultTempSensorBasic; live := h |}.

Definition TempSensor_with (s : sensor_ptr) (h : gset nat) : TempSensor :=
  {| sensor := s; live := h |}.

Definition uninstallSensor (t : TempSensor) : option (bool * TempSensor) :=
  if decide (sensor t = defaultTempSensorBasic) then
    Some (false, t)
  else
    t ← delete (sensor t) t;
    let t := set_sensor defaultTempSensorBasic t in
    Some (true, t).

Definition installSensor (s : sensor_ptr) (t : TempSensor) : option TempSensor :=
  '(_, t) ← uninstallSensor t;
  Some (set_sensor s t).

Definition getSensor (t : TempSensor) : sensor_ptr := sensor t.

(** The wrapper points at the default sensor or at a live heap object. *)
Definition sound (t : TempSensor) : Prop := owned (sensor t) ⊆ live t.

End Sensor.

(* ===================================================================== *)
(** ** The valve controller *)
(* ===================================================================== *)

Module Valve.

(** DS2408.h is not among the sources: the device is taken as the two
    bytes its reads return, the levels of the eight I/O pins and the eight
    output latches. *)
Record DS2408 := {
  pios : Z;
  latches : Z
}.

Definition readPios (d : DS2408) (doUpdate : bool) : Z := pios d.
Definition readLatches (d : DS2408) (doUpdate : bool) : Z := latches d.

(** The members of a [ValveController]. *)
Record ValveController := {
  device : DS2408;
  output : Z (* 0=A or 1=B *)
}.

Definition VALVE_OPENED : Z := 1.
Definition VALVE_CLOSED : Z := 2.
Definition VALVE_HALFWAY : Z := 3.

Definition VALVE_OPENING : Z := 1.
Definition VALVE_CLOSING : Z := 2.
Definition VALVE_IDLE : Z := 3.

(** Conversion to [uint8_t]. *)
Definition uint8 (x : Z) : Z := x mod 256.

Definition getState (v : ValveController) : Z :=
  let states := readPios (device v) true in
  let states :=
    if decide (output v = 1) then uint8 (Z.shiftr states 4) else states in
  uint8 (Z.land states 3).

Definition getAction (v : ValveController) : Z :=
  let latches := readLatches (device v) true in
  let latches :=
    if decide (output v = 1) then uint8 (Z.shiftr latches 4) else latches in
  uint8 (Z.land (Z.shiftr latches 2) 3).

Definition isActive (v : ValveController) : bool :=
  (* return active when not closed, so a half open valve also returns active *)
  bool_decide (getAction v ≠ VALVE_CLOSING).

(** [read]; [update] is defined outside the sources and is taken as a
    parameter. *)
Definition read (update : ValveController → ValveController)
    (doUpdate : bool) (v : ValveController) : Z * ValveController :=
  let v := if doUpdate then update v else v in
  (uint8 (Z.lor (Z.shiftl (getAction v) 2) (getState v)), v).

(** The first bit of the nibble of a valve: 4 for the valve on the upper
    bits, 0 for the one on the lower bits. *)
Definition nibble (v : ValveController) : Z :=
  if decide (output v = 1) then 4 else 0.

End Valve.

(* ===================================================================== *)
(** ** Logs *)
(* ===================================================================== *)

Lemma emitted_app {A} (l k : list A) : emitted l (l ++ k) = k.
Proof. unfold emitted. by rewrite drop_app_length. Qed.

(* ===================================================================== *)
(** ** Properties of the bus arbiter *)
(* ===================================================================== *)

Module ArbiterSpec.
Import Arbiter.

(** Projections of an arbiter given field by field. *)
Ltac arbiter_fields :=
  cbn beta iota delta
    [mode_ bitOrder_ clockDivider_ ss_pin_ spi_ gpio calls
     dataMode bitOrder clockDivider].

(** One guarded statement of [apply]: decide its test, compute the state
    it leaves and go on with the statements after it. *)
Ltac arbiter_stage :=
  arbiter_fields;
  try (match goal with |- context [@decide ?P ?d] => destruct (@decide P d) end);
  lazymatch goal with
  | |- context G [let x := ?v in @?f x] =>
      let v' := eval cbv beta iota zeta delta
                  [mode_ bitOrder_ clockDivider_ ss_pin_ spi_ gpio calls
                   dataMode bitOrder clockDivider
                   setDataMode setBitOrder setClockDivider digitalWrite hw
                   set_mode_ set_bitOrder_ set_clockDivider_] in v in
      let g := context G [f v'] in
      change g; cbv beta
  end.

(** Case analysis along the four tests of [apply], in program order. *)
Ltac apply_cases a :=
  destruct a as [? ? ? ? [? ? ?] ? ?]; cbv beta delta [apply];
  do 4 arbiter_stage;
  unfold digitalWrite, hw; arbiter_fields.

(** [apply] in closed form: the state it leaves, field by field. *)
Lemma apply_eq c a :
  apply c a =
    {| mode_ := getMode c; bitOrder_ := getBitOrder c;
       clockDivider_ := getClockDivider c; ss_pin_ := ss_pin_ a;
       spi_ :=
         {| dataMode :=
              if decide (mode_ a ≠ getMode c) then getMode c
              else dataMode (spi_ a);
            bitOrder :=
              if decide (bitOrder_ a ≠ getBitOrder c) then getBitOrder c
              else bitOrder (spi_ a);
            clockDivider :=
              if decide (clockDivider_ a ≠ getClockDivider c)
              then getClockDivider c else clockDivider (spi_ a) |};
       gpio :=
         <[getSSPin c := LOW]>
           (if decide (ss_pin_ a ≠ 255) then <[ss_pin_ a := HIGH]> (gpio a)
            else gpio a);
       calls := calls a ++ apply_calls c a |}.
Proof.
  apply_cases a; unfold apply_calls; arbiter_fields;
    repeat case_decide; try done;
    cbn [app]; rewrite <- ?app_assoc; cbn [app];
    f_equal; by apply dec_stable.
Qed.

Lemma apply_log c a : calls (apply c a) = calls a ++ apply_calls c a.
Proof. by rewrite apply_eq. Qed.

Lemma apply_emitted c a : emitted (calls a) (calls (apply c a)) = apply_calls c a.
Proof. by rewrite apply_log, emitted_app. Qed.

(** [apply] stores the three electrical fields of the client and leaves
    the stored select pin as it was. *)
Lemma apply_stored c a :
  mode_ (apply c a) = getMode c ∧ bitOrder_ (apply c a) = getBitOrder c ∧
  clockDivider_ (apply c a) = getClockDivider c ∧
  ss_pin_ (apply c a) = ss_pin_ a.
Proof. by rewrite apply_eq. Qed.

(** When the stored fields are those of the peripheral, the peripheral is
    configured as the client declares after [apply]. *)
Lemma apply_peripheral c a :
  dataMode (spi_ a) = mode_ a → bitOrder (spi_ a) = bitOrder_ a →
  clockDivider (spi_ a) = clockDivider_ a →
  spi_ (apply c a) =
    {| dataMode := getMode c; bitOrder := getBitOrder c;
       clockDivider := getClockDivider c |}.
Proof.
  intros Hm Hb Hd. rewrite apply_eq. arbiter_fields. rewrite Hm, Hb, Hd.
  repeat case_decide; f_equal; done.
Qed.

(** The client's select line is asserted after [apply]. *)
Lemma apply_asserts c a : asserted (apply c a) (getSSPin c).
Proof. unfold asserted. rewrite apply_eq. apply lookup_insert_eq. Qed.

Lemma elem_of_when {A} (P : Prop) `{Decision P} (x e : A) :
  e ∈ (if decide P then [x] else []) ↔ P ∧ e = x.
Proof.
  case_decide; [rewrite list_elem_of_singleton | rewrite elem_of_nil]; tauto.
Qed.

(** The calls of an access, one by one. *)
Lemma in_apply_calls e c a :
  e ∈ apply_calls c a ↔
    (mode_ a ≠ getMode c ∧ e = SetDataMode (getMode c)) ∨
    (bitOrder_ a ≠ getBitOrder c ∧ e = SetBitOrder (getBitOrder c)) ∨
    (clockDivider_ a ≠ getClockDivider c ∧
     e = SetClockDivider (getClockDivider c)) ∨
    (ss_pin_ a ≠ 255 ∧ e = DigitalWrite (ss_pin_ a) HIGH) ∨
    e = DigitalWrite (getSSPin c) LOW.
Proof.
  unfold apply_calls.
  by rewrite !elem_of_app, !elem_of_when, list_elem_of_singleton.
Qed.

(** C1. No access changes the stored select pin. So after two accesses in
    a row, X then Y, from the initial arbiter: the stored electrical fields
    and the peripheral are those of Y and Y's line (pin 9) is asserted, but
    the stored select pin is still the "no selection" value 255, not 9, and
    X's line (pin 7) is still asserted; the state does not match Y's
    configuration. *)
Theorem apply_select_pin_not_recorded :
  (∀ c a, ss_pin_ (apply c a) = ss_pin_ a) ∧
  let a := apply clientY (apply clientX (initial 0 MSBFIRST 128)) in
  mode_ a = 3 ∧ bitOrder_ a = LSBFIRST ∧ clockDivider_ a = 64 ∧
  spi_ a = {| dataMode := 3; bitOrder := LSBFIRST; clockDivider := 64 |} ∧
  asserted a 9 ∧
  ss_pin_ a = 255 ∧ asserted a 7 ∧ ¬ matches clientY a.
Proof.
  split; [intros c a; apply apply_stored |].
  repeat split; try reflexivity.
  intros (_ & _ & _ & Hss & _). vm_compute in Hss. discriminate.
Qed.

(** C2. From the initial arbiter, where no line is asserted, an access by X
    followed by an access by Y leaves both pin 7 and pin 9 asserted: mutual
    exclusion of the select lines does not hold after the second access. *)
Theorem handover_asserts_two_lines :
  mutual_exclusion (initial 0 MSBFIRST 128) ∧
  let a := apply_all [clientX; clientY] (initial 0 MSBFIRST 128) in
  asserted a 7 ∧ asserted a 9 ∧ ¬ mutual_exclusion a.
Proof.
  split.
  - intros p q Hp. unfold asserted in Hp. simpl in Hp.
    by rewrite lookup_empty in Hp.
  - assert (H7 : asserted (apply_all [clientX; clientY] (initial 0 MSBFIRST 128)) 7)
      by reflexivity.
    assert (H9 : asserted (apply_all [clientX; clientY] (initial 0 MSBFIRST 128)) 9)
      by reflexivity.
    split; [done | split; [done |]].
    intros Hm. specialize (Hm 7 9 H7 H9). discriminate.
Qed.

(** C3, as stated, fails: in the scenario, from the initial arbiter, the
    second [apply] starts with the electrical updates, not with a write to
    pin 7. It does so too from a state in which pin 7 is the stored select
    pin: the release of pin 7 then comes fourth, after the updates. *)
Lemma handover_order_counterexample :
  (let a1 := apply clientX (initial 0 MSBFIRST 128) in
   emitted (calls a1) (calls (apply clientY a1)) =
     [SetDataMode 3; SetBitOrder LSBFIRST; SetClockDivider 64;
      DigitalWrite 9 LOW] ∧
   emitted (calls a1) (calls (apply clientY a1)) ≠
     [DigitalWrite 7 HIGH; SetDataMode 3; SetBitOrder LSBFIRST;
      SetClockDivider 64; DigitalWrite 9 LOW]) ∧
  (let a1 := apply clientX (selected 7) in
   emitted (calls a1) (calls (apply clientY a1)) =
     [SetDataMode 3; SetBitOrder LSBFIRST; SetClockDivider 64;
      DigitalWrite 7 HIGH; DigitalWrite 9 LOW] ∧
   emitted (calls a1) (calls (apply clientY a1)) ≠
     [DigitalWrite 7 HIGH; SetDataMode 3; SetBitOrder LSBFIRST;
      SetClockDivider 64; DigitalWrite 9 LOW]).
Proof.
  split; (split; [reflexivity | vm_compute; discriminate]).
Qed.

(** C3, amended. After an access by X, from any arbiter state, the access
    by Y emits the three electrical updates first, in the order set mode 3,
    set bit order LSB-first, set clock divider 64; whatever release of a
    select line it performs comes after them; and its last call asserts
    pin 9. *)
Theorem handover_order :
  ∀ a, let a1 := apply clientX a in
  ∃ sel, emitted (calls a1) (calls (apply clientY a1)) =
           [SetDataMode 3; SetBitOrder LSBFIRST; SetClockDivider 64] ++ sel ++
           [DigitalWrite 9 LOW]
         ∧ Forall is_deassert sel.
Proof.
  intros a a1. rewrite apply_emitted.
  destruct (apply_stored clientX a) as (Hm & Hb & Hd & _). fold a1 in Hm, Hb, Hd.
  unfold apply_calls. rewrite Hm, Hb, Hd.
  rewrite !decide_True by (unfold clientX, clientY; cbn [getMode getBitOrder getClockDivider]; done).
  exists (if decide (ss_pin_ a1 ≠ 255) then [DigitalWrite (ss_pin_ a1) HIGH] else []).
  split; [reflexivity |].
  case_decide; repeat constructor. by eexists.
Qed.

(** C4, as stated, fails: the second of two identical accesses still
    writes the select pin. *)
Lemma repeated_apply_counterexample :
  let a1 := apply clientX (initial 0 MSBFIRST 128) in
  emitted (calls a1) (calls (apply clientX a1)) = [DigitalWrite 7 LOW] ∧
  emitted (calls a1) (calls (apply clientX a1)) ≠ [].
Proof. split; [reflexivity | vm_compute; discriminate]. Qed.

(** C4, amended. The second of two identical accesses performs no
    electrical configuration call. In any access each of the three
    electrical calls is made exactly when the stored field differs from the
    client's, with the client's value; the write asserting the client's
    select pin is made in every access, as the last call. *)
Theorem apply_only_changed_fields :
  ∀ c a,
    filter is_electrical
      (emitted (calls (apply c a)) (calls (apply c (apply c a)))) = [] ∧
    (∀ m, SetDataMode m ∈ emitted (calls a) (calls (apply c a)) ↔
          mode_ a ≠ getMode c ∧ m = getMode c) ∧
    (∀ b, SetBitOrder b ∈ emitted (calls a) (calls (apply c a)) ↔
          bitOrder_ a ≠ getBitOrder c ∧ b = getBitOrder c) ∧
    (∀ d, SetClockDivider d ∈ emitted (calls a) (calls (apply c a)) ↔
          clockDivider_ a ≠ getClockDivider c ∧ d = getClockDivider c) ∧
    last (emitted (calls a) (calls (apply c a))) =
      Some (DigitalWrite (getSSPin c) LOW).
Proof.
  intros c a. rewrite !apply_emitted.
  destruct (apply_stored c a) as (Hm & Hb & Hd & _).
  split; [| split; [| split; [| split]]].
  - unfold apply_calls. rewrite Hm, Hb, Hd.
    rewrite !decide_False by (intros H; by apply H).
    by case_decide.
  - intros m. rewrite in_apply_calls. split.
    + intros [[? [= ->]] | [[_ [=]] | [[_ [=]] | [[_ [=]] | [=]]]]]; done.
    + intros [? ->]. by left.
  - intros b. rewrite in_apply_calls. split.
    + intros [[_ [=]] | [[? [= ->]] | [[_ [=]] | [[_ [=]] | [=]]]]]; done.
    + intros [? ->]. right. by left.
  - intros d. rewrite in_apply_calls. split.
    + intros [[_ [=]] | [[_ [=]] | [[? [= ->]] | [[_ [=]] | [=]]]]]; done.
    + intros [? ->]. right. right. by left.
  - unfold apply_calls. rewrite !(assoc_L (++)). apply last_snoc.
Qed.

End ArbiterSpec.

(* ===================================================================== *)
(** ** Properties of the display driver *)
(* ===================================================================== *)

Module LcdSpec.
Import Lcd.

(** *** Logs *)

Lemma background_no_transfer ev : Forall background ev → dma_transfers ev = [].
Proof.
  induction 1 as [|e ev He _ IH]; [done |].
  unfold dma_transfers in *. destruct e; simpl in *; done.
Qed.

Lemma dma_transfers_app l k :
  dma_transfers (l ++ k) = dma_transfers l ++ dma_transfers k.
Proof. apply omap_app. Qed.

(** Projections of a state after an assignment or a logged event. *)
Tactic Notation "driver_fields" :=
  cbn beta iota zeta delta
    [tx_buffer active_buffer_idx active_buffer_offset dma_buffer_idx dma
     latencies cs dc log record set_tx_buffer set_active_buffer_idx
     set_active_buffer_offset set_dma_buffer_idx set_dma set_latencies
     set_cs set_dc job_buffer job_length job_left transferComplete
     D4DLCD_ASSERT_CS D4DLCD_DEASSERT_CS D4DLCD_ASSERT_DC D4DLCD_DEASSERT_DC
     SPI_transfer].
Tactic Notation "driver_fields" "in" hyp_list(Hs) :=
  cbn beta iota zeta delta
    [tx_buffer active_buffer_idx active_buffer_offset dma_buffer_idx dma
     latencies cs dc log record set_tx_buffer set_active_buffer_idx
     set_active_buffer_offset set_dma_buffer_idx set_dma set_latencies
     set_cs set_dc job_buffer job_length job_left transferComplete
     D4DLCD_ASSERT_CS D4DLCD_DEASSERT_CS D4DLCD_ASSERT_DC D4DLCD_DEASSERT_DC
     SPI_transfer] in Hs.

(** *** One instant of hardware time *)

(** What [tick] leaves alone, and what it adds to the log. *)
Lemma tick_frame s :
  tx_buffer (tick s) = tx_buffer s ∧
  active_buffer_idx (tick s) = active_buffer_idx s ∧
  active_buffer_offset (tick s) = active_buffer_offset s ∧
  ∃ ev, log (tick s) = log s ++ ev ∧ Forall background ev.
Proof.
  unfold tick. destruct (dma s) as [|j q]; [|destruct (job_left j)]; simpl;
    repeat split; try done.
  - exists []. by rewrite app_nil_r.
  - exists [DmaComplete (job_buffer j); PinCS HIGH].
    rewrite <- app_assoc. split; [done | by repeat constructor].
  - exists []. by rewrite app_nil_r.
Qed.

Lemma tick_idle s : dma s = [] → tick s = s.
Proof. unfold tick. by intros ->. Qed.

Lemma tick_time_left s : dma s ≠ [] → S (time_left (tick s)) = time_left s.
Proof.
  unfold tick, time_left. destruct (dma s) as [|j q]; [done | intros _].
  destruct (job_left j) eqn:E; simpl; rewrite ?E; reflexivity.
Qed.

Lemma time_left_idle s : time_left s = O → dma s = [].
Proof. unfold time_left. by destruct (dma s). Qed.

(** *** Waiting *)

Lemma poll_S n s :
  poll (S n) s =
    if bool_decide (dma (tick s) ≠ []) then poll n (record (Status true) (tick s))
    else record (Status false) (tick s).
Proof.
  change (poll (S n) s) with
    (let '(b, s') := HAL_SPI_DMA_Transfer_Status s in if b then poll n s' else s').
  unfold HAL_SPI_DMA_Transfer_Status. by destruct (bool_decide _).
Qed.

(** With at least as many polls allowed as the engine has instants left,
    the loop ends on a poll that reads idle, with the engine idle; before
    it there are only polls that read ongoing and completions. *)
Lemma poll_spec n s :
  (time_left s ≤ n)%nat →
  dma (poll (S n) s) = [] ∧
  tx_buffer (poll (S n) s) = tx_buffer s ∧
  active_buffer_idx (poll (S n) s) = active_buffer_idx s ∧
  active_buffer_offset (poll (S n) s) = active_buffer_offset s ∧
  ∃ ev, log (poll (S n) s) = log s ++ ev ++ [Status false] ∧
        Forall background ev.
Proof.
  revert s. induction n as [|n IH]; intros s Hn; rewrite poll_S;
    destruct (tick_frame s) as (Hb & Hi & Ho & ev & Hl & Hev).
  - assert (Hd : dma s = []) by (apply time_left_idle; lia).
    rewrite (tick_idle s Hd), Hd. cbn.
    repeat split; try done. by exists [].
  - destruct (bool_decide (dma (tick s) ≠ [])) eqn:E.
    + apply bool_decide_eq_true in E.
      assert (Hs : dma s ≠ []).
      { intros Hd. by rewrite (tick_idle s Hd) in E. }
      pose proof (tick_time_left s Hs) as Ht.
      destruct (IH (record (Status true) (tick s)))
        as (Hd' & Hb' & Hi' & Ho' & ev' & Hl' & Hev').
      { unfold time_left in *. driver_fields. lia. }
      driver_fields in Hb' Hi' Ho' Hl'.
      split; [done |]. split; [by rewrite Hb' |]. split; [by rewrite Hi' |].
      split; [by rewrite Ho' |].
      exists (ev ++ [Status true] ++ ev'). split.
      * rewrite Hl', Hl. by rewrite <- !app_assoc.
      * rewrite !Forall_app. split; [done | split; [by repeat constructor | done]].
    + apply bool_decide_eq_false in E. apply dec_stable in E.
      cbn. split; [done |]. repeat split; try done.
      exists ev. split; [by rewrite Hl, <- app_assoc | done].
Qed.

Lemma wait_spec s :
  let s' := waitForTransferToComplete s in
  dma s' = [] ∧ tx_buffer s' = tx_buffer s ∧
  active_buffer_idx s' = active_buffer_idx s ∧
  active_buffer_offset s' = active_buffer_offset s ∧
  ∃ ev, log s' = log s ++ ev ++ [Status false] ∧ Forall background ev.
Proof. apply poll_spec. lia. Qed.

(** The wait always ends with the engine idle. *)
Lemma wait_idle s : dma (waitForTransferToComplete s) = [].
Proof. apply wait_spec. Qed.

(** *** Guarded logs *)

Lemma inflight_snoc l e : inflight (l ++ [e]) = inflight_step (inflight l) e.
Proof. unfold inflight. apply foldl_snoc. Qed.

Lemma background_not_start e : background e → ¬ is_start e.
Proof. destruct e; cbn; tauto. Qed.

Lemma guarded_app l ev :
  guarded l → Forall (λ e, ¬ is_start e) ev → guarded (l ++ ev).
Proof.
  intros Hl Hev. revert l Hl.
  induction Hev as [|e ev He _ IH]; intros l Hl.
  - by rewrite app_nil_r.
  - rewrite cons_middle, (assoc_L (++)). apply IH. constructor; [done |].
    by destruct e.
Qed.

Lemma guarded_snoc_inv l e : guarded (l ++ [e]) → guarded l ∧ start_guarded l e.
Proof.
  inversion 1 as [Hnil | l' e' Hl He Heq].
  - by destruct l.
  - apply app_inj_tail in Heq as [-> ->]. done.
Qed.

Lemma guarded_prefix l p : guarded l → p `prefix_of` l → guarded p.
Proof.
  induction 1 as [|l e Hl IH He]; intros [k Hk].
  - symmetry in Hk. apply app_eq_nil in Hk as [-> _]. constructor.
  - destruct k as [|x k _] using rev_ind.
    + rewrite app_nil_r in Hk. subst p. by constructor.
    + rewrite (assoc_L (++)) in Hk. apply app_inj_tail in Hk as [-> _].
      apply IH. by exists k.
Qed.

(** In a guarded log the engine never owns more than one buffer. *)
Lemma guarded_inflight l : guarded l → (length (inflight l) ≤ 1)%nat.
Proof.
  induction 1 as [|l e Hl IH He]; [simpl; lia |].
  rewrite inflight_snoc. destruct e; simpl in *; try done.
  - destruct He as [-> _]. simpl. lia.
  - destruct (inflight l); simpl in *; lia.
Qed.

(** *** The log and the engine stay in step *)

Lemma record_hw_ok e s :
  hw_ok s → ¬ is_start e → (∀ i, e ≠ DmaComplete i) → hw_ok (record e s).
Proof.
  intros [Hg Hi] He Hc. split; simpl.
  - constructor; [done | by destruct e].
  - rewrite inflight_snoc, <- Hi. destruct e; simpl in *; try done.
    by destruct (Hc idx).
Qed.

Lemma tick_hw_ok s : hw_ok s → hw_ok (tick s).
Proof.
  intros [Hg Hi]. unfold tick. destruct (dma s) as [|j q] eqn:E.
  - split; [done | by rewrite E].
  - destruct (job_left j).
    + split; driver_fields.
      * rewrite <- (assoc_L (++)). apply guarded_app; [done |].
        repeat constructor; by intros [].
      * rewrite !inflight_snoc, Hi. done.
    + split; driver_fields; [done | by rewrite Hi].
Qed.

Lemma poll_hw_ok n s : hw_ok s → hw_ok (poll n s).
Proof.
  revert s. induction n as [|n IH]; intros s Hs; [done |].
  rewrite poll_S.
  assert (H : ∀ b, hw_ok (record (Status b) (tick s))).
  { intros b. apply record_hw_ok; [by apply tick_hw_ok | by intros [] | done]. }
  destruct (bool_decide _); [apply IH |]; apply H.
Qed.

Lemma wait_hw_ok s : hw_ok s → hw_ok (waitForTransferToComplete s).
Proof. apply poll_hw_ok. Qed.

Lemma bytes_of_ext s s' i len :
  tx_buffer s' = tx_buffer s → bytes_of s' i len = bytes_of s i len.
Proof. unfold bytes_of, buffer_at. by intros ->. Qed.

(** [scheduleTransfer]: polls until idle, asserts chip select and hands the
    row to the engine, in that order and with nothing in between. *)
Lemma scheduleTransfer_spec i len s :
  let s' := scheduleTransfer i len s in
  tx_buffer s' = tx_buffer s ∧
  active_buffer_idx s' = active_buffer_idx s ∧
  active_buffer_offset s' = active_buffer_offset s ∧
  (dma_buffer_idx s' = i ∨ dma_buffer_idx s' = -1) ∧
  ∃ ev1 ev2,
    log s' = log s ++ ev1 ++
             [Status false; PinCS LOW; DmaTransfer i (bytes_of s i len) len] ++
             ev2 ∧
    Forall background ev1 ∧ Forall background ev2.
Proof.
  unfold scheduleTransfer, SPI_transfer_dma.
  destruct (wait_spec s) as (Hd & Hb & Hi & Ho & ev1 & Hl & Hev1).
  revert Hd Hb Hi Ho Hl. generalize (waitForTransferToComplete s).
  intros w Hd Hb Hi Ho Hl.
  match goal with |- context [tick ?x] => set (t := x) end.
  destruct (tick_frame t) as (Hb' & Hi' & Ho' & ev2 & Hl' & Hev2).
  cbn zeta. repeat split.
  - by rewrite Hb'.
  - by rewrite Hi'.
  - by rewrite Ho'.
  - unfold tick. subst t. driver_fields. rewrite Hd. cbn [app].
    driver_fields. destruct (default _ _); driver_fields; auto.
  - exists ev1, ev2. split; [| done].
    rewrite Hl'. subst t. driver_fields. rewrite Hl.
    rewrite (bytes_of_ext s _ i len) by done.
    by rewrite <- !(assoc_L (++)).
Qed.

Lemma scheduleTransfer_hw_ok i len s :
  hw_ok s → hw_ok (scheduleTransfer i len s).
Proof.
  intros Hs. unfold scheduleTransfer, SPI_transfer_dma.
  destruct (wait_spec s) as (Hd & _ & _ & _ & ev1 & Hl & _).
  apply wait_hw_ok in Hs as [Hg Hi].
  revert Hd Hl Hg Hi. generalize (waitForTransferToComplete s).
  intros w Hd Hl Hg Hi.
  apply tick_hw_ok. split; driver_fields.
  - constructor; [| split].
    + by apply (guarded_snoc (log w) (PinCS LOW)).
    + by rewrite inflight_snoc, Hi, Hd.
    + rewrite Hl. exists (log s ++ ev1). by rewrite <- !(assoc_L (++)).
  - rewrite !inflight_snoc, Hi, Hd. rewrite fmap_app. done.
Qed.

(** The successor of a buffer index is never that index, nor the "no
    buffer" value: the second wait of [flushData] is never entered. *)
Lemma next_idx_fresh i : Z.land (i + 1) 1 ≠ i ∧ Z.land (i + 1) 1 ≠ -1.
Proof.
  change 1 with (Z.ones 1) at 2 4. rewrite Z.land_ones by lia.
  change (2 ^ 1) with 2. pose proof (Z.mod_pos_bound (i + 1) 2 eq_refl) as Hb.
  split; [| lia]. intros Heq.
  assert (i = 0 ∨ i = 1) as [-> | ->] by lia; discriminate.
Qed.

Lemma next_idx_range i : 0 ≤ Z.land (i + 1) 1 < 2.
Proof.
  change 1 with (Z.ones 1) at 2 4. rewrite Z.land_ones by lia.
  apply (Z.mod_pos_bound (i + 1) 2 eq_refl).
Qed.

(** [flushData] with bytes pending: they are handed over from the active
    row with the fill offset as length, the other row becomes the active
    one and is empty. *)
Lemma flushData_spec s :
  active_buffer_offset s ≠ 0 →
  let s' := flushData s in
  tx_buffer s' = tx_buffer s ∧
  active_buffer_idx s' = Z.land (active_buffer_idx s + 1) 1 ∧
  active_buffer_offset s' = 0 ∧
  ∃ ev1 ev2,
    log s' = log s ++ ev1 ++
             [Status false; PinCS LOW;
              DmaTransfer (active_buffer_idx s) (pending s)
                          (active_buffer_offset s)] ++ ev2 ∧
    Forall background ev1 ∧ Forall background ev2.
Proof.
  intros Ho. unfold flushData, hasPendingDataToSend.
  destruct (decide _) as [_ | ?]; [| done].
  destruct (scheduleTransfer_spec (active_buffer_idx s) (active_buffer_offset s) s)
    as (Hb & Hi & Hoff & Hdma & ev1 & ev2 & Hl & He1 & He2).
  cbn zeta. revert Hb Hi Hoff Hdma Hl.
  generalize (scheduleTransfer (active_buffer_idx s) (active_buffer_offset s) s).
  intros t Hb Hi Hoff Hdma Hl.
  destruct (decide _) as [Heq | _].
  { exfalso. rewrite Hi in Heq.
    destruct (next_idx_fresh (active_buffer_idx s)) as [H1 H2].
    destruct Hdma as [Hd | Hd]; rewrite Hd in Heq; done. }
  cbn. rewrite Hi. repeat split; try done. by exists ev1, ev2.
Qed.

Lemma flushData_empty s : active_buffer_offset s = 0 → flushData s = s.
Proof.
  intros Ho. unfold flushData, hasPendingDataToSend.
  by destruct (decide _).
Qed.

Lemma flushData_hw_ok s : hw_ok s → hw_ok (flushData s).
Proof.
  intros Hs. unfold flushData. destruct (decide _); [| done].
  cbn zeta.
  pose proof (scheduleTransfer_hw_ok (active_buffer_idx s)
                (active_buffer_offset s) s Hs) as Ht.
  revert Ht.
  generalize (scheduleTransfer (active_buffer_idx s) (active_buffer_offset s) s).
  intros t Ht.
  destruct (decide (_ = _)); [apply wait_hw_ok in Ht |];
    unfold hw_ok in *; driver_fields; exact Ht.
Qed.

Lemma flushData_sw_ok s : sw_ok s → sw_ok (flushData s).
Proof.
  intros Hs. destruct (decide (active_buffer_offset s = 0)) as [Ho | Ho];
    [by rewrite flushData_empty |].
  destruct (flushData_spec s Ho) as (Hb & Hi & Hoff & _).
  destruct Hs as (Hlen & _ & _). unfold sw_ok.
  rewrite Hb, Hi, Hoff. pose proof (next_idx_range (active_buffer_idx s)).
  unfold SCREEN_DATA_BUFFER_SIZE. repeat split; (done || lia).
Qed.

(** *** Appending to the active row *)

Lemma sw_ok_rows s :
  sw_ok s →
  ∃ r0 r1, tx_buffer s = [r0; r1] ∧
           length r0 = Z.to_nat SCREEN_DATA_BUFFER_SIZE ∧
           length r1 = Z.to_nat SCREEN_DATA_BUFFER_SIZE.
Proof.
  intros (Hlen & _). destruct (tx_buffer s) as [|r0 [|r1 [|? ?]]]; try done.
  injection Hlen as H0 H1. by exists r0, r1.
Qed.

Lemma take_insert_snoc {A} (row : list A) n x :
  (n < length row)%nat → take (S n) (<[n := x]> row) = take n row ++ [x].
Proof.
  intros Hn. rewrite (take_S_r _ _ x) by by apply list_lookup_insert_eq.
  by rewrite take_insert_ge.
Qed.

(** The store of [SendDataWord] on a well-formed state: it is defined, the
    row lengths stay, the byte [value mod 256] joins the pending bytes, and
    the offset moves up by one, to the capacity at most. *)
Lemma store_word_spec value s :
  sw_ok s →
  ∃ s1, store_word value s = Some s1 ∧
    length <$> tx_buffer s1 = length <$> tx_buffer s ∧
    active_buffer_idx s1 = active_buffer_idx s ∧
    active_buffer_offset s1 = active_buffer_offset s + 1 ∧
    pending s1 = pending s ++ [value mod 256] ∧
    log s1 = log s ∧ dma s1 = dma s.
Proof.
  intros Hs. destruct (sw_ok_rows s Hs) as (r0 & r1 & Hb & H0 & H1).
  destruct Hs as (_ & Hi & Ho). unfold SCREEN_DATA_BUFFER_SIZE in *.
  unfold store_word. rewrite decide_True by done.
  eexists; split; [reflexivity |].
  unfold pending, bytes_of, buffer_at. driver_fields.
  rewrite (Z.mod_small (active_buffer_offset s + 1)) by lia.
  rewrite !decide_True by lia. rewrite Hb.
  replace (Z.to_nat (active_buffer_offset s + 1))
    with (S (Z.to_nat (active_buffer_offset s))) by lia.
  assert (Hn : (Z.to_nat (active_buffer_offset s) < Z.to_nat 320)%nat) by lia.
  assert (active_buffer_idx s = 0 ∨ active_buffer_idx s = 1) as [-> | ->] by lia.
  - change (Z.to_nat 0) with 0%nat. cbn [alter list_alter fmap list_fmap lookup list_lookup default].
    rewrite length_insert. repeat split; try done.
    unfold id. apply take_insert_snoc. by rewrite H0.
  - change (Z.to_nat 1) with 1%nat. cbn [alter list_alter fmap list_fmap lookup list_lookup default].
    rewrite length_insert. repeat split; try done.
    unfold id. apply take_insert_snoc. by rewrite H1.
Qed.

Lemma store_word_defined value s :
  is_Some (store_word value s) ↔
  (0 ≤ active_buffer_idx s < 2) ∧
  (0 ≤ active_buffer_offset s < SCREEN_DATA_BUFFER_SIZE).
Proof.
  unfold store_word. destruct (decide _) as [H | H].
  - split; [done | by eexists].
  - split; [by intros [? ?] | done].
Qed.

Lemma flushData_sw_ok' s :
  length <$> tx_buffer s =
    [Z.to_nat SCREEN_DATA_BUFFER_SIZE; Z.to_nat SCREEN_DATA_BUFFER_SIZE] →
  0 ≤ active_buffer_idx s < 2 →
  0 ≤ active_buffer_offset s ≤ SCREEN_DATA_BUFFER_SIZE →
  sw_ok (flushData s).
Proof.
  intros Hlen Hi Ho.
  destruct (decide (active_buffer_offset s = 0)) as [Hz | Hz].
  - rewrite flushData_empty by done. unfold sw_ok, SCREEN_DATA_BUFFER_SIZE.
    rewrite Hz. repeat split; (done || lia).
  - destruct (flushData_spec s Hz) as (Hb & Hi' & Hoff & _). unfold sw_ok.
    rewrite Hb, Hi', Hoff. pose proof (next_idx_range (active_buffer_idx s)).
    unfold SCREEN_DATA_BUFFER_SIZE. repeat split; (done || lia).
Qed.

(** [SendDataWord] on a well-formed state.  Below the capacity the byte
    stays pending; on reaching it the whole row is handed over. *)
Lemma send_data_spec value s :
  sw_ok s →
  ∃ s', D4DLCDHW_SendDataWord_Spi_Spark_8b value s = Some s' ∧ sw_ok s' ∧
    ((active_buffer_offset s + 1 < SCREEN_DATA_BUFFER_SIZE ∧
      active_buffer_idx s' = active_buffer_idx s ∧
      active_buffer_offset s' = active_buffer_offset s + 1 ∧
      pending s' = pending s ++ [value mod 256] ∧
      log s' = log s)
     ∨
     (active_buffer_offset s + 1 = SCREEN_DATA_BUFFER_SIZE ∧
      active_buffer_idx s' = Z.land (active_buffer_idx s + 1) 1 ∧
      active_buffer_offset s' = 0 ∧
      ∃ ev1 ev2,
        log s' = log s ++ ev1 ++
                 [Status false; PinCS LOW;
                  DmaTransfer (active_buffer_idx s)
                              (pending s ++ [value mod 256])
                              SCREEN_DATA_BUFFER_SIZE] ++ ev2 ∧
        Forall background ev1 ∧ Forall background ev2)).
Proof.
  intros Hs.
  destruct (store_word_spec value s Hs) as (s1 & Hst & Hlen & Hi & Ho & Hp & Hl & _).
  destruct Hs as (Hrows & Hidx & Hoff).
  unfold D4DLCDHW_SendDataWord_Spi_Spark_8b. rewrite Hst. cbn.
  eexists; split; [reflexivity |].
  destruct (decide _) as [Hge | Hlt].
  - assert (Hfull : active_buffer_offset s1 = SCREEN_DATA_BUFFER_SIZE) by lia.
    split.
    { apply flushData_sw_ok'; [by rewrite Hlen | by rewrite Hi | lia]. }
    right. destruct (flushData_spec s1) as (_ & Hi' & Ho' & ev1 & ev2 & Hl' & He);
      [unfold SCREEN_DATA_BUFFER_SIZE in *; lia |].
    rewrite Hi in Hi'. rewrite Hl, Hp, Hi, Hfull in Hl'.
    repeat split; [lia | done | done |]. by exists ev1, ev2.
  - split.
    { unfold sw_ok. rewrite Hlen, Hi. repeat split; (done || lia). }
    left. repeat split; (done || lia).
Qed.

Lemma send_data_hw_ok value s s' :
  D4DLCDHW_SendDataWord_Spi_Spark_8b value s = Some s' → hw_ok s → hw_ok s'.
Proof.
  unfold D4DLCDHW_SendDataWord_Spi_Spark_8b, store_word.
  destruct (decide _); [| done]. cbn. intros [= <-] Hs.
  destruct (decide _); [apply flushData_hw_ok |]; exact Hs.
Qed.

(** *** The invariant of the driver *)

Lemma sw_ok_ext s s' :
  tx_buffer s' = tx_buffer s → active_buffer_idx s' = active_buffer_idx s →
  active_buffer_offset s' = active_buffer_offset s → sw_ok s → sw_ok s'.
Proof. unfold sw_ok. by intros -> -> ->. Qed.

Lemma hw_ok_ext s s' : log s' = log s → dma s' = dma s → hw_ok s → hw_ok s'.
Proof. unfold hw_ok. by intros -> ->. Qed.

Lemma tick_sw_ok s : sw_ok s → sw_ok (tick s).
Proof. destruct (tick_frame s) as (? & ? & ? & _). by apply sw_ok_ext. Qed.

Lemma wait_sw_ok s : sw_ok s → sw_ok (waitForTransferToComplete s).
Proof. destruct (wait_spec s) as (_ & ? & ? & ? & _). by apply sw_ok_ext. Qed.

(** The tail of [SendCmdWord], after the flush and the wait: it changes
    neither the statics nor the engine, and logs five events. *)
Lemma cmd_tail cmd w :
  let s' := D4DLCD_DEASSERT_DC (D4DLCD_DEASSERT_CS (SPI_transfer cmd
              (D4DLCD_ASSERT_CS (D4DLCD_ASSERT_DC w)))) in
  tx_buffer s' = tx_buffer w ∧ active_buffer_idx s' = active_buffer_idx w ∧
  active_buffer_offset s' = active_buffer_offset w ∧ dma s' = dma w ∧
  cs s' = HIGH ∧ dc s' = HIGH ∧
  log s' = log w ++ [PinDC LOW; PinCS LOW; Transfer cmd; PinCS HIGH; PinDC HIGH].
Proof. driver_fields. rewrite <- !(assoc_L (++)). done. Qed.

Lemma cmd_tail_hw_ok cmd w :
  hw_ok w →
  hw_ok (D4DLCD_DEASSERT_DC (D4DLCD_DEASSERT_CS (SPI_transfer cmd
           (D4DLCD_ASSERT_CS (D4DLCD_ASSERT_DC w))))).
Proof.
  intros [Hg Hi]. destruct (cmd_tail cmd w) as (_ & _ & _ & Hd & _ & _ & Hl).
  split; rewrite Hl, ?Hd.
  - apply guarded_app; [done |]. repeat constructor; by intros [].
  - rewrite <- Hi. unfold inflight. by rewrite foldl_app.
Qed.

Lemma send_cmd_inv cmd s : inv s → inv (D4DLCDHW_SendCmdWord_Spi_Spark_8b cmd s).
Proof.
  intros [Hsw Hhw]. unfold D4DLCDHW_SendCmdWord_Spi_Spark_8b. cbn zeta.
  apply flushData_sw_ok, wait_sw_ok in Hsw.
  apply flushData_hw_ok, wait_hw_ok in Hhw.
  revert Hsw Hhw. generalize (waitForTransferToComplete (flushData s)).
  intros w Hsw Hhw. split; [| by apply cmd_tail_hw_ok].
  destruct (cmd_tail cmd w) as (? & ? & ? & _). by eapply sw_ok_ext.
Qed.

Lemma flush_buffer_eq mode s : D4DLCD_FlushBuffer_Spi_Spark_8b mode s = flushData s.
Proof. reflexivity. Qed.

Lemma step_inv o s : inv s → ∃ s', step o s = Some s' ∧ inv s'.
Proof.
  intros [Hsw Hhw]. destruct o as [value | cmd | mode |]; cbn [step].
  - destruct (send_data_spec value s Hsw) as (s' & Hs' & Hsw' & _).
    exists s'. split; [done |]. split; [done |]. by eapply send_data_hw_ok.
  - eexists; split; [done |]. by apply send_cmd_inv.
  - eexists; split; [done |]. rewrite flush_buffer_eq.
    split; [by apply flushData_sw_ok | by apply flushData_hw_ok].
  - eexists; split; [done |]. split; [by apply tick_sw_ok | by apply tick_hw_ok].
Qed.

Lemma run_inv ops s : inv s → ∃ s', run ops s = Some s' ∧ inv s'.
Proof.
  revert s. induction ops as [|o ops IH]; intros s Hs; [by exists s |].
  destruct (step_inv o s Hs) as (s1 & Hstep & Hs1).
  destruct (IH s1 Hs1) as (s' & Hrun & Hs').
  exists s'. split; [| done]. cbn [run]. by rewrite Hstep.
Qed.

Lemma initial_inv lat : inv (initial lat).
Proof.
  split.
  - unfold sw_ok, SCREEN_DATA_BUFFER_SIZE. cbn. repeat split; (done || lia).
  - split; [constructor | reflexivity].
Qed.

Lemma reachable_inv lat ops s : run ops (initial lat) = Some s → inv s.
Proof.
  intros Hrun. destruct (run_inv ops _ (initial_inv lat)) as (s' & Hrun' & Hs').
  by simplify_eq.
Qed.

Lemma run_app ops1 ops2 s :
  run (ops1 ++ ops2) s = run ops1 s ≫= run ops2.
Proof.
  revert s. induction ops1 as [|o ops1 IH]; intros s; [done |].
  cbn [run app]. destruct (step o s) as [s1|]; [apply IH | done].
Qed.

(** *** The claims about the driver *)

(** C10. The mode passed to the flush operation has no influence: for any
    two modes the driver ends in the same state, log of hardware events
    included, and that state is the one [flushData] gives. *)
Theorem flush_mode_irrelevant :
  ∀ (s : driver) (m1 m2 : D4DLCD_FLUSH_MODE),
    D4DLCD_FlushBuffer_Spi_Spark_8b m1 s = D4DLCD_FlushBuffer_Spi_Spark_8b m2 s ∧
    D4DLCD_FlushBuffer_Spi_Spark_8b m1 s = flushData s.
Proof. intros s m1 m2. by rewrite !flush_buffer_eq. Qed.

(** C8. From the initial state, after any sequence of data writes, command
    writes, flushes and idle instants: every store so far was inside its
    row (the run is defined, and a store outside is not); both rows still
    have 320 cells; the active index is 0 or 1 and the fill offset is below
    320, so the next store is inside its row too; and right after that
    store and increment, before the capacity test, the offset is 320 at
    most. *)
Theorem fill_offset_within_capacity :
  ∀ (lat : list nat) (ops : list op),
    ∃ s, run ops (initial lat) = Some s ∧
      length <$> tx_buffer s = [320%nat; 320%nat] ∧
      0 ≤ active_buffer_idx s < 2 ∧
      0 ≤ active_buffer_offset s < SCREEN_DATA_BUFFER_SIZE ∧
      ∀ value, ∃ s1, store_word value s = Some s1 ∧
        length <$> tx_buffer s1 = [320%nat; 320%nat] ∧
        active_buffer_offset s1 = active_buffer_offset s + 1 ∧
        0 ≤ active_buffer_offset s1 ≤ SCREEN_DATA_BUFFER_SIZE.
Proof.
  intros lat ops.
  destruct (run_inv ops _ (initial_inv lat)) as (s & Hrun & Hsw & _).
  exists s. split; [done |]. pose proof Hsw as (Hlen & Hi & Ho).
  repeat split; try done; try lia.
  intros value.
  destruct (store_word_spec value s Hsw) as (s1 & Hst & Hlen1 & _ & Ho1 & _).
  exists s1. rewrite Hlen1, Ho1. repeat split; try done; lia.
Qed.

(** C6. From the initial state, after any sequence of data writes, command
    writes, flushes and idle instants, whatever the durations of the
    transfers: the engine owns at most one buffer, now and after every
    prefix of the log of events; and every asynchronous transfer in the log
    was started with no transfer in flight, directly after a status poll
    that read idle and the assertion of chip select. *)
Theorem at_most_one_transfer_in_flight :
  ∀ (lat : list nat) (ops : list op),
    ∃ s, run ops (initial lat) = Some s ∧
      (length (dma s) ≤ 1)%nat ∧
      (∀ p, p `prefix_of` log s → (length (inflight p) ≤ 1)%nat) ∧
      (∀ p idx data len,
         p ++ [DmaTransfer idx data len] `prefix_of` log s →
         inflight p = [] ∧ [Status false; PinCS LOW] `suffix_of` p).
Proof.
  intros lat ops.
  destruct (run_inv ops _ (initial_inv lat)) as (s & Hrun & _ & Hg & Hi).
  exists s. split; [done |]. split; [| split].
  - rewrite <- (length_fmap job_buffer), <- Hi. by apply guarded_inflight.
  - intros p Hp. eapply guarded_inflight, guarded_prefix; done.
  - intros p idx data len Hp.
    apply (guarded_prefix _ _ Hg), guarded_snoc_inv in Hp as [_ Hstart].
    exact Hstart.
Qed.


Lemma flushData_offset s : active_buffer_offset (flushData s) = 0.
Proof.
  destruct (decide (active_buffer_offset s = 0)) as [Hz | Hz].
  - by rewrite flushData_empty.
  - by destruct (flushData_spec s Hz) as (_ & _ & ? & _).
Qed.

(** C7. A command-word write, in any state of the driver: it first runs the
    flush, which hands over the pending bytes when there are some; then
    there are only polls and completions until a poll reads idle; directly
    after that poll it drives the data/command line low, asserts chip
    select, makes its synchronous transfer, and releases chip select and
    the data/command line. Afterwards nothing is pending, the engine is
    idle and both lines are high. *)
Theorem command_word_sent_on_idle_bus :
  ∀ (s : driver) (cmd : Z),
    let s' := D4DLCDHW_SendCmdWord_Spi_Spark_8b cmd s in
    (∃ ev,
       log s' = log (flushData s) ++ ev ++
                [Status false; PinDC LOW; PinCS LOW; Transfer cmd;
                 PinCS HIGH; PinDC HIGH] ∧
       Forall background ev) ∧
    ((active_buffer_offset s = 0 ∧ flushData s = s) ∨
     (∃ ev1 ev2,
        log (flushData s) = log s ++ ev1 ++
          [Status false; PinCS LOW;
           DmaTransfer (active_buffer_idx s) (pending s) (active_buffer_offset s)]
          ++ ev2 ∧
        Forall background ev1 ∧ Forall background ev2)) ∧
    active_buffer_offset s' = 0 ∧ dma s' = [] ∧ cs s' = HIGH ∧ dc s' = HIGH.
Proof.
  intros s cmd s'. subst s'. unfold D4DLCDHW_SendCmdWord_Spi_Spark_8b. cbn zeta.
  destruct (wait_spec (flushData s)) as (Hd & _ & _ & Ho & ev & Hl & Hev).
  rewrite flushData_offset in Ho.
  revert Hd Ho Hl. generalize (waitForTransferToComplete (flushData s)).
  intros w Hd Ho Hl.
  destruct (cmd_tail cmd w) as (_ & _ & Ho' & Hd' & Hcs & Hdc & Hl').
  split; [| split].
  - exists ev. split; [| done]. rewrite Hl', Hl. by rewrite <- !(assoc_L (++)).
  - destruct (decide (active_buffer_offset s = 0)) as [Hz | Hz].
    + left. split; [done | by apply flushData_empty].
    + right. destruct (flushData_spec s Hz) as (_ & _ & _ & ev1 & ev2 & ? & ? & ?).
      by exists ev1, ev2.
  - rewrite Ho', Hd'. done.
Qed.

(** *** One data word, one byte *)

Lemma sent_bytes_app l k : sent_bytes (l ++ k) = sent_bytes l ++ sent_bytes k.
Proof. unfold sent_bytes. apply bind_app. Qed.

Lemma background_no_bytes ev : Forall background ev → sent_bytes ev = [].
Proof.
  induction 1 as [|e ev He _ IH]; [done |].
  unfold sent_bytes in *. cbn. rewrite IH. by destruct e.
Qed.

Lemma pending_empty s : active_buffer_offset s = 0 → pending s = [].
Proof. unfold pending, bytes_of. by intros ->. Qed.

(** The store writes the low byte of the word into the cell at the fill
    offset of the active row and no other cell. *)
Lemma store_word_cells value s s1 :
  sw_ok s → store_word value s = Some s1 →
  cell s1 (active_buffer_idx s) (active_buffer_offset s) = Some (value mod 256) ∧
  ∀ i j, (i, j) ≠ (active_buffer_idx s, active_buffer_offset s) →
         cell s1 i j = cell s i j.
Proof.
  intros Hs. destruct (sw_ok_rows s Hs) as (r0 & r1 & Hb & H0 & H1).
  destruct Hs as (_ & Hi & Ho). unfold store_word.
  rewrite decide_True by done. intros [= <-].
  unfold cell, buffer_at, SCREEN_DATA_BUFFER_SIZE in *. driver_fields.
  assert (Hrow : ∀ n row, [r0; r1] !! n = Some row → length row = Z.to_nat 320).
  { intros [|[|n]] row [= <-]; done. }
  split.
  - rewrite !decide_True by lia. rewrite list_lookup_alter_eq, Hb.
    destruct ([r0; r1] !! Z.to_nat (active_buffer_idx s)) as [row|] eqn:E.
    + cbn. rewrite decide_True by lia.
      apply list_lookup_insert_eq. rewrite (Hrow _ _ E). lia.
    + apply lookup_ge_None in E. cbn in E. lia.
  - intros i j Hne. destruct (decide (0 ≤ i)) as [Hi0 | ?]; [| done].
    rewrite list_lookup_alter, Hb.
    destruct (decide (Z.to_nat (active_buffer_idx s) = Z.to_nat i)) as [Hidx | ?];
      [| done].
    rewrite <- Hidx.
    destruct ([r0; r1] !! Z.to_nat (active_buffer_idx s)) as [row|]; [| done].
    cbn. destruct (decide (0 ≤ j)) as [Hj0 | ?]; [| done].
    apply list_lookup_insert_ne. intros Hj.
    apply Hne. f_equal; lia.
Qed.

(** C9. A data word handed to the buffered write in a state the driver can
    be in: the store is inside the rows; the cell at the fill offset of the
    active row then holds the word modulo 256, which is its low 8 bits, and
    every other cell of both rows holds what it held; the pending bytes
    have grown by that one byte; the flush that follows when the row is
    full changes no cell; and over the whole call the bytes taken by the
    driver (handed to the engine, then pending) have grown by exactly that
    byte. *)
Theorem data_word_appends_low_byte :
  ∀ (lat : list nat) (ops : list op) (s : driver) (value : Z),
    run ops (initial lat) = Some s →
    0 ≤ value < 65536 →
    ∃ s1 s',
      store_word value s = Some s1 ∧
      D4DLCDHW_SendDataWord_Spi_Spark_8b value s = Some s' ∧
      cell s1 (active_buffer_idx s) (active_buffer_offset s) = Some (value mod 256) ∧
      (∀ i j, (i, j) ≠ (active_buffer_idx s, active_buffer_offset s) →
              cell s1 i j = cell s i j) ∧
      pending s1 = pending s ++ [value mod 256] ∧
      tx_buffer s' = tx_buffer s1 ∧
      value mod 256 = Z.land value 255 ∧
      stream s' = stream s ++ [value mod 256].
Proof.
  intros lat ops s value Hrun Hv.
  apply reachable_inv in Hrun as [Hsw _].
  destruct (store_word_spec value s Hsw) as (s1 & Hst & Hlen & Hi & Ho & Hp & Hl & _).
  destruct (store_word_cells value s s1 Hsw Hst) as [Hc1 Hc2].
  destruct (send_data_spec value s Hsw) as (s' & Hsend & _ & Hcases).
  exists s1, s'. repeat (split; [done |]).
  assert (Hb : tx_buffer s' = tx_buffer s1).
  { revert Hsend. unfold D4DLCDHW_SendDataWord_Spi_Spark_8b. rewrite Hst. cbn.
    intros [= <-]. case_decide as Hfull; [| done].
    destruct (decide (active_buffer_offset s1 = 0)) as [Hz | Hz].
    - by rewrite flushData_empty.
    - by destruct (flushData_spec s1 Hz) as (? & _). }
  split; [done |]. split.
  { change 255 with (Z.ones 8). rewrite Z.land_ones by lia. done. }
  unfold stream.
  destruct Hcases as [(_ & _ & _ & Hp' & Hl') | (_ & _ & Ho' & ev1 & ev2 & Hl' & He1 & He2)].
  - by rewrite Hl', Hp', (assoc_L (++)).
  - rewrite Hl', (pending_empty s' Ho'), !sent_bytes_app.
    rewrite (background_no_bytes ev1), (background_no_bytes ev2) by done.
    cbn. by rewrite !app_nil_r, (assoc_L (++)).
Qed.


(** *** Filling a row and handing it over *)

Lemma pending_ext s s' :
  tx_buffer s' = tx_buffer s → active_buffer_idx s' = active_buffer_idx s →
  active_buffer_offset s' = active_buffer_offset s → pending s' = pending s.
Proof. unfold pending, bytes_of, buffer_at. by intros -> -> ->. Qed.

(** Data writes and idle instants that stay within the capacity of the
    active row: either the row does not fill up, the bytes join the pending
    ones and nothing is handed over; or the last write fills the row and
    the row is handed over whole, once. *)
Lemma fill_run ops :
  ∀ s,
    sw_ok s → forallb is_flush_free ops = true →
    active_buffer_offset s + Z.of_nat (length (data_words ops))
      ≤ SCREEN_DATA_BUFFER_SIZE →
    ∃ s' ev,
      run ops s = Some s' ∧ sw_ok s' ∧ log s' = log s ++ ev ∧
      ((active_buffer_idx s' = active_buffer_idx s ∧
        active_buffer_offset s' =
          active_buffer_offset s + Z.of_nat (length (data_words ops)) ∧
        pending s' = pending s ++ ((λ w, w mod 256) <$> data_words ops) ∧
        dma_transfers ev = [])
       ∨
       (active_buffer_offset s + Z.of_nat (length (data_words ops))
          = SCREEN_DATA_BUFFER_SIZE ∧
        active_buffer_offset s' = 0 ∧
        dma_transfers ev =
          [(active_buffer_idx s,
            pending s ++ ((λ w, w mod 256) <$> data_words ops),
            SCREEN_DATA_BUFFER_SIZE)])).
Proof.
  induction ops as [|o ops IH]; intros s Hs Hfree Hcap.
  - exists s, []. rewrite app_nil_r. change (data_words []) with (@nil Z).
    split; [done |]. split; [done |]. split; [done |].
    left. cbn [length fmap list_fmap]. rewrite app_nil_r.
    repeat split; (done || lia).
  - cbn [forallb] in Hfree. apply andb_prop in Hfree as [Ho Hfree].
    destruct o as [value | cmd | mode |]; try done.
    + (* a data word *)
      change (data_words (SendDataWord value :: ops))
        with (value :: data_words ops) in *.
      cbn [length fmap list_fmap] in *.
      destruct (send_data_spec value s Hs) as (s1 & Hsend & Hs1 & Hcases).
      cbn [run step]. rewrite Hsend. cbn [mbind option_bind].
      destruct Hcases as [(Hlt & Hi1 & Ho1 & Hp1 & Hl1)
                         | (Hfull & Hi1 & Ho1 & ev1 & ev2 & Hl1 & He1 & He2)].
      * destruct (IH s1 Hs1 Hfree) as (s' & ev & Hrun & Hs' & Hl & Hcase);
          [lia |].
        exists s', ev. split; [done |]. split; [done |].
        split; [by rewrite Hl, Hl1 |].
        destruct Hcase as [(Hi' & Ho' & Hp' & Hev) | (Hfull' & Ho' & Hev)];
          [left | right].
        -- split; [by rewrite Hi', Hi1 |]. split; [lia |]. split; [| done].
           by rewrite Hp', Hp1, <- (assoc_L (++)).
        -- split; [lia |]. split; [done |].
           by rewrite Hev, Hi1, Hp1, <- (assoc_L (++)).
      * assert (Hnil : data_words ops = []).
        { destruct (data_words ops); [done | cbn in Hcap; lia]. }
        rewrite Hnil in *. cbn [length fmap list_fmap] in *.
        destruct (IH s1 Hs1 Hfree) as (s' & ev & Hrun & Hs' & Hl & Hcase);
          [unfold SCREEN_DATA_BUFFER_SIZE in *; lia |].
        exists s', (ev1 ++ [Status false; PinCS LOW;
                            DmaTransfer (active_buffer_idx s)
                              (pending s ++ [value mod 256])
                              SCREEN_DATA_BUFFER_SIZE] ++ ev2 ++ ev).
        split; [done |]. split; [done |]. split.
        { rewrite Hl, Hl1. by rewrite <- !(assoc_L (++)). }
        right. split; [lia |].
        assert (Hev : dma_transfers ev = [] ∧ active_buffer_offset s' = 0).
        { destruct Hcase as [(_ & ? & _ & ?) | (? & _)];
            [split; [done | lia] | unfold SCREEN_DATA_BUFFER_SIZE in *; lia]. }
        destruct Hev as [Hev Ho']. split; [done |].
        rewrite !dma_transfers_app, Hev.
        rewrite (background_no_transfer ev1), (background_no_transfer ev2) by done.
        done.
    + (* an idle instant *)
      change (data_words (Elapse :: ops)) with (data_words ops) in *.
      destruct (tick_frame s) as (Hb & Hi & Hoff & ev0 & Hl0 & He0).
      destruct (IH (tick s)) as (s' & ev & Hrun & Hs' & Hl & Hcase);
        [by apply tick_sw_ok | done | lia |].
      exists s', (ev0 ++ ev). cbn [run step mbind option_bind].
      split; [done |]. split; [done |]. split.
      { rewrite Hl, Hl0. by rewrite <- (assoc_L (++)). }
      rewrite dma_transfers_app, (background_no_transfer ev0) by done.
      rewrite Hi, Hoff, (pending_ext s (tick s)) in Hcase by done.
      exact Hcase.
Qed.

(** C5. In a state the driver can be in, data writes (with idle instants
    anywhere between them) that together with the bytes already pending do
    not exceed the capacity, followed by a flush: exactly one asynchronous
    transfer is started, from the row that was active, and the bytes and
    the length handed over are the bytes that were pending followed by the
    low bytes of the words written, in the order written. Nothing is left
    pending. *)
Theorem pending_bytes_handed_over_in_order :
  ∀ (lat : list nat) (ops0 : list op) (s : driver) (ops : list op)
    (mode : D4DLCD_FLUSH_MODE),
    run ops0 (initial lat) = Some s →
    forallb is_flush_free ops = true →
    0 < active_buffer_offset s + Z.of_nat (length (data_words ops))
      ≤ SCREEN_DATA_BUFFER_SIZE →
    ∃ s',
      run (ops ++ [FlushBuffer mode]) s = Some s' ∧
      dma_transfers (emitted (log s) (log s')) =
        [(active_buffer_idx s,
          pending s ++ ((λ w, w mod 256) <$> data_words ops),
          active_buffer_offset s + Z.of_nat (length (data_words ops)))] ∧
      active_buffer_offset s' = 0.
Proof.
  intros lat ops0 s ops mode Hreach Hfree [Hpos Hcap].
  apply reachable_inv in Hreach as [Hsw _].
  destruct (fill_run ops s Hsw Hfree Hcap) as (s1 & ev & Hrun & Hs1 & Hl & Hcase).
  exists (flushData s1). rewrite run_app, Hrun. cbn.
  split; [done |].
  destruct Hcase as [(Hi & Ho & Hp & Hev) | (Hfull & Ho & Hev)].
  - destruct (flushData_spec s1) as (_ & _ & Ho' & ev1 & ev2 & Hl' & He1 & He2);
      [lia |].
    split; [| done]. rewrite Hl', Hl, <- (assoc_L (++)), emitted_app.
    rewrite !dma_transfers_app, Hev.
    rewrite (background_no_transfer ev1), (background_no_transfer ev2) by done.
    cbn. by rewrite Hi, Hp, Ho.
  - rewrite flushData_empty by done. split; [| done].
    by rewrite Hl, emitted_app, Hev, Hfull.
Qed.


(** *** The claims at concrete inputs *)

(** C9 at the initial state, for the word 0x1234. *)
Lemma data_word_appends_low_byte_witness :
  run [] (initial []) = Some (initial []) ∧ 0 ≤ 4660 < 65536 ∧
  ∃ s1 s',
    store_word 4660 (initial []) = Some s1 ∧
    D4DLCDHW_SendDataWord_Spi_Spark_8b 4660 (initial []) = Some s' ∧
    cell s1 0 0 = Some 52 ∧
    (∀ i j, (i, j) ≠ (0, 0) → cell s1 i j = cell (initial []) i j) ∧
    pending s1 = [52] ∧
    tx_buffer s' = tx_buffer s1 ∧
    4660 mod 256 = Z.land 4660 255 ∧
    stream s' = [52].
Proof.
  split; [reflexivity |]. split; [lia |].
  apply (data_word_appends_low_byte [] [] (initial []) 4660); [reflexivity | lia].
Defined.

(** C5 from the initial state: the words 0x1234 and 0xABCD with an idle
    instant between them, then a forced flush. *)
Lemma pending_bytes_handed_over_in_order_witness :
  run [] (initial []) = Some (initial []) ∧
  forallb is_flush_free [SendDataWord 4660; Elapse; SendDataWord 43981] = true ∧
  0 < active_buffer_offset (initial []) +
      Z.of_nat (length (data_words [SendDataWord 4660; Elapse; SendDataWord 43981]))
    ≤ SCREEN_DATA_BUFFER_SIZE ∧
  ∃ s',
    run ([SendDataWord 4660; Elapse; SendDataWord 43981] ++
         [FlushBuffer D4DLCD_FLSH_FORCE]) (initial []) = Some s' ∧
    dma_transfers (emitted (log (initial [])) (log s')) = [(0, [52; 205], 2)] ∧
    active_buffer_offset s' = 0.
Proof.
  split; [reflexivity |]. split; [reflexivity |]. split; [done |].
  apply (pending_bytes_handed_over_in_order [] [] (initial [])
           [SendDataWord 4660; Elapse; SendDataWord 43981] D4DLCD_FLSH_FORCE);
    [reflexivity | reflexivity | done].
Defined.

(** A full row: 320 data writes from the initial state start one transfer
    of 320 bytes from row 0, and row 1 becomes the active one, empty. *)
Example full_row_is_handed_over :
  ∃ s, run (SendDataWord <$> seqZ 0 320) (initial []) = Some s ∧
       dma_transfers (log s) = [(0, (λ w, w mod 256) <$> seqZ 0 320, 320)] ∧
       active_buffer_idx s = 1 ∧ active_buffer_offset s = 0.
Proof. eexists. split; [vm_compute; reflexivity |]. repeat split; vm_compute; reflexivity. Qed.

End LcdSpec.

(* ===================================================================== *)
(** ** Further properties of the display driver *)
(* ===================================================================== *)

Module LcdMore.
Import Lcd LcdSpec.

(** A property kept by every operation holds after every run. *)
Lemma run_preserves (P : driver → Prop) :
  (∀ o s s', inv s → P s → step o s = Some s' → P s') →
  ∀ ops s, inv s → P s → ∃ s', run ops s = Some s' ∧ inv s' ∧ P s'.
Proof.
  intros Hstep ops. induction ops as [|o ops IH]; intros s Hs HP.
  - by exists s.
  - destruct (step_inv o s Hs) as (s1 & Hs1 & Hinv1).
    destruct (IH s1 Hinv1 (Hstep o s s1 Hs HP Hs1)) as (s' & Hrun & Hinv' & HP').
    exists s'. cbn [run]. rewrite Hs1. done.
Qed.


(** *** What each operation adds to the log *)



Lemma handover_transfers ev1 ev2 i d n :
  Forall background ev1 → Forall background ev2 →
  dma_transfers (ev1 ++ [Status false; PinCS LOW; DmaTransfer i d n] ++ ev2)
    = [(i, d, n)].
Proof.
  intros H1 H2. rewrite !dma_transfers_app.
  by rewrite (background_no_transfer ev1), (background_no_transfer ev2).
Qed.


(** The two ways of [flushData]. *)
Lemma flushData_cases s :
  tx_buffer (flushData s) = tx_buffer s ∧
  active_buffer_offset (flushData s) = 0 ∧
  ((active_buffer_offset s = 0 ∧ flushData s = s) ∨
   (active_buffer_offset s ≠ 0 ∧
    active_buffer_idx (flushData s) = Z.land (active_buffer_idx s + 1) 1 ∧
    ∃ ev1 ev2,
      log (flushData s) = log s ++ ev1 ++
        [Status false; PinCS LOW;
         DmaTransfer (active_buffer_idx s) (pending s) (active_buffer_offset s)]
        ++ ev2 ∧
      Forall background ev1 ∧ Forall background ev2)).
Proof.
  destruct (decide (active_buffer_offset s = 0)) as [Hz | Hz].
  - rewrite (flushData_empty s Hz). repeat split; try done. by left.
  - destruct (flushData_spec s Hz) as (Hb & Hi & Ho & ev1 & ev2 & Hl & H1 & H2).
    repeat split; try done. right. repeat split; try done. by exists ev1, ev2.
Qed.

(** The pending bytes are as many as the fill offset says. *)
Lemma pending_length s :
  length <$> tx_buffer s =
    [Z.to_nat SCREEN_DATA_BUFFER_SIZE; Z.to_nat SCREEN_DATA_BUFFER_SIZE] →
  0 ≤ active_buffer_idx s < 2 →
  0 ≤ active_buffer_offset s ≤ SCREEN_DATA_BUFFER_SIZE →
  Z.of_nat (length (pending s)) = active_buffer_offset s.
Proof.
  intros Hlen Hi Ho. unfold pending, bytes_of, buffer_at.
  rewrite decide_True by lia.
  destruct (tx_buffer s) as [|r0 [|r1 [|? ?]]]; try done.
  injection Hlen as H0 H1. unfold SCREEN_DATA_BUFFER_SIZE in *.
  rewrite length_take.
  assert (active_buffer_idx s = 0 ∨ active_buffer_idx s = 1) as [-> | ->] by lia.
  - change ([r0; r1] !! Z.to_nat 0) with (Some r0). cbn [default from_option]. unfold id. lia.
  - change ([r0; r1] !! Z.to_nat 1) with (Some r1). cbn [default from_option]. unfold id. lia.
Qed.

(** The fields an operation on the command path leaves alone. *)
Lemma send_cmd_frame cmd s :
  let s' := D4DLCDHW_SendCmdWord_Spi_Spark_8b cmd s in
  tx_buffer s' = tx_buffer s ∧
  active_buffer_idx s' = active_buffer_idx (flushData s) ∧
  active_buffer_offset s' = 0 ∧
  ∃ ev, log s' = log (flushData s) ++ ev ++
                 [Status false; PinDC LOW; PinCS LOW; Transfer cmd;
                  PinCS HIGH; PinDC HIGH] ∧
        Forall background ev.
Proof.
  unfold D4DLCDHW_SendCmdWord_Spi_Spark_8b. cbn zeta.
  destruct (wait_spec (flushData s)) as (_ & Hb & Hi & Ho & ev & Hl & Hev).
  destruct (flushData_cases s) as (Hb' & Ho' & _). rewrite Hb' in Hb. rewrite Ho' in Ho.
  revert Hb Hi Ho Hl. generalize (waitForTransferToComplete (flushData s)).
  intros w Hb Hi Ho Hl.
  destruct (cmd_tail cmd w) as (Hb1 & Hi1 & Ho1 & _ & _ & _ & Hl1).
  split; [by rewrite Hb1 |]. split; [by rewrite Hi1 |]. split; [by rewrite Ho1 |].
  exists ev. split; [| done]. rewrite Hl1, Hl. by rewrite <- !(assoc_L (++)).
Qed.


(** *** Order on the bus *)






(** *** The transfers of a run *)

(** An operation starts no transfer, or exactly one: from the active row,
    well-formed, and the other row becomes the active one. *)
Lemma step_transfers o s s' :
  sw_ok s → step o s = Some s' →
  (dma_transfers (log s') = dma_transfers (log s) ∧
   active_buffer_idx s' = active_buffer_idx s) ∨
  (∃ d n,
     dma_transfers (log s') =
       dma_transfers (log s) ++ [(active_buffer_idx s, d, n)] ∧
     transfer_ok (active_buffer_idx s, d, n) ∧
     active_buffer_idx s' = Z.land (active_buffer_idx s + 1) 1).
Proof.
  intros Hs Hstep. pose proof Hs as (Hlen & Hi & Ho).
  assert (Hflush :
    (dma_transfers (log (flushData s)) = dma_transfers (log s) ∧
     active_buffer_idx (flushData s) = active_buffer_idx s) ∨
    (∃ d n,
       dma_transfers (log (flushData s)) =
         dma_transfers (log s) ++ [(active_buffer_idx s, d, n)] ∧
       transfer_ok (active_buffer_idx s, d, n) ∧
       active_buffer_idx (flushData s) = Z.land (active_buffer_idx s + 1) 1)).
  { destruct (flushData_cases s)
      as (_ & _ & [[Hz ->] | (Hnz & Hi' & ev1 & ev2 & Hl' & H1 & H2)]);
      [by left | right].
    exists (pending s), (active_buffer_offset s).
    split; [by rewrite Hl', dma_transfers_app, handover_transfers |].
    split; [| done]. unfold transfer_ok. cbn [fst snd].
    split; [done |]. split; [lia |]. apply pending_length; (done || lia). }
  destruct o as [value | cmd | mode |]; cbn [step] in Hstep.
  - destruct (send_data_spec value s Hs) as (s1 & Hsend & _ & Hcases).
    rewrite Hsend in Hstep. injection Hstep as <-.
    destruct Hcases as [(_ & Hi1 & _ & _ & Hl)
                       | (Hfull & Hi1 & _ & ev1 & ev2 & Hl & H1 & H2)].
    + left. by rewrite Hl.
    + right. exists (pending s ++ [value mod 256]), SCREEN_DATA_BUFFER_SIZE.
      split; [by rewrite Hl, dma_transfers_app, handover_transfers |].
      split; [| done]. unfold transfer_ok. cbn [fst snd].
      split; [done |]. split; [done |].
      rewrite length_app, Nat2Z.inj_add, pending_length by (done || lia).
      cbn. lia.
  - injection Hstep as <-.
    destruct (send_cmd_frame cmd s) as (_ & Hi1 & _ & ev & Hl & Hev).
    assert (Ht : dma_transfers (log (D4DLCDHW_SendCmdWord_Spi_Spark_8b cmd s))
                 = dma_transfers (log (flushData s))).
    { rewrite Hl, !dma_transfers_app, (background_no_transfer ev) by done.
      cbn. by rewrite app_nil_r. }
    rewrite Ht, Hi1. exact Hflush.
  - injection Hstep as <-. rewrite flush_buffer_eq. exact Hflush.
  - injection Hstep as <-. left.
    destruct (tick_frame s) as (_ & Hi1 & _ & ev & Hl & Hev).
    split; [| done].
    by rewrite Hl, dma_transfers_app, (background_no_transfer ev), app_nil_r.
Qed.

(** X2. Every asynchronous transfer the driver ever starts reads row 0 or
    row 1, has a length between 1 and the capacity 320, and carries exactly
    as many bytes as its length: no empty transfer (a flush with nothing
    pending starts none) and none that runs past the end of a row. *)
Theorem transfers_are_well_formed :
  ∀ (lat : list nat) (ops : list op),
    ∃ s, run ops (initial lat) = Some s ∧
      Forall transfer_ok (dma_transfers (log s)).
Proof.
  intros lat ops.
  destruct (run_preserves (λ s, Forall transfer_ok (dma_transfers (log s))))
    with (ops := ops) (s := initial lat) as (s & Hrun & _ & HP).
  - intros o s s' [Hsw _] HP Hstep.
    destruct (step_transfers o s s' Hsw Hstep) as [[-> _] | (d & n & -> & Hok & _)];
      [done |].
    apply Forall_app. split; [done | by constructor].
  - apply initial_inv.
  - constructor.
  - by exists s.
Qed.

Lemma next_idx_mod i : Z.land (i + 1) 1 = (i + 1) mod 2.
Proof. change 1 with (Z.ones 1) at 2. by rewrite Z.land_ones by lia. Qed.

(** X3. The two rows take turns: counted from the initial state, the k-th
    asynchronous transfer (k = 0, 1, 2, ...) reads row k mod 2, and the
    active row is the one the next transfer will read. *)
Theorem rows_alternate :
  ∀ (lat : list nat) (ops : list op),
    ∃ s, run ops (initial lat) = Some s ∧
      (λ t : Z * list Z * Z, t.1.1) <$> dma_transfers (log s) =
        (λ k, Z.of_nat k mod 2) <$> seq 0 (length (dma_transfers (log s))) ∧
      active_buffer_idx s = Z.of_nat (length (dma_transfers (log s))) mod 2.
Proof.
  intros lat ops.
  destruct (run_preserves (λ s,
      (λ t : Z * list Z * Z, t.1.1) <$> dma_transfers (log s) =
        (λ k, Z.of_nat k mod 2) <$> seq 0 (length (dma_transfers (log s))) ∧
      active_buffer_idx s = Z.of_nat (length (dma_transfers (log s))) mod 2))
    with (ops := ops) (s := initial lat) as (s & Hrun & _ & HP).
  - intros o s s' [Hsw _] [Hidx Hact] Hstep.
    destruct (step_transfers o s s' Hsw Hstep)
      as [[-> ->] | (d & n & -> & _ & ->)]; [done |].
    rewrite length_app, Nat.add_1_r, seq_S, !fmap_app, <- Hidx. cbn.
    split; [by rewrite Hact |].
    rewrite next_idx_mod, Hact, Nat2Z.inj_succ.
    rewrite Zplus_mod_idemp_l. f_equal.
  - apply initial_inv.
  - done.
  - by exists s.
Qed.


(** Data writes and idle instants only: every transfer started is a full
    row, and the rows handed over and the bytes pending account for the
    words written. *)
Lemma data_run ops :
  ∀ s,
    sw_ok s → forallb is_flush_free ops = true →
    ∃ s' ts,
      run ops s = Some s' ∧ sw_ok s' ∧
      dma_transfers (log s') = dma_transfers (log s) ++ ts ∧
      Forall (λ t : Z * list Z * Z, t.2 = SCREEN_DATA_BUFFER_SIZE) ts ∧
      SCREEN_DATA_BUFFER_SIZE * Z.of_nat (length ts) + active_buffer_offset s' =
        active_buffer_offset s + Z.of_nat (length (data_words ops)).
Proof.
  induction ops as [|o ops IH]; intros s Hs Hfree.
  - exists s, []. rewrite app_nil_r. change (data_words []) with (@nil Z).
    cbn [length]. split; [done |]. split; [done |]. split; [done |].
    split; [constructor | lia].
  - cbn [forallb] in Hfree. apply andb_prop in Hfree as [Ho Hfree].
    destruct o as [value | cmd | mode |]; try done.
    + change (data_words (SendDataWord value :: ops))
        with (value :: data_words ops).
      destruct (send_data_spec value s Hs) as (s1 & Hsend & Hs1 & Hcases).
      destruct (IH s1 Hs1 Hfree) as (s' & ts & Hrun & Hs' & Ht & Hfull & Hcount).
      cbn [run step]. rewrite Hsend. cbn [mbind option_bind length].
      destruct Hcases as [(_ & _ & Ho1 & _ & Hl)
                         | (Hcap & _ & Ho1 & ev1 & ev2 & Hl & H1 & H2)].
      * exists s', ts. rewrite Hl in Ht.
        split; [done |]. split; [done |]. split; [done |]. split; [done | lia].
      * exists s', ((active_buffer_idx s, pending s ++ [value mod 256],
                     SCREEN_DATA_BUFFER_SIZE) :: ts).
        split; [done |]. split; [done |]. split.
        { rewrite Ht, Hl, dma_transfers_app, handover_transfers by done.
          by rewrite <- (assoc_L (++)). }
        split; [by constructor |]. cbn [length]. lia.
    + change (data_words (Elapse :: ops)) with (data_words ops).
      destruct (tick_frame s) as (_ & _ & Hoff & ev & Hl & Hev).
      destruct (IH (tick s)) as (s' & ts & Hrun & Hs' & Ht & Hfull & Hcount);
        [by apply tick_sw_ok | done |].
      exists s', ts. cbn [run step mbind option_bind].
      rewrite Hl, dma_transfers_app, (background_no_transfer ev), app_nil_r in Ht
        by done.
      split; [done |]. split; [done |]. split; [done |]. split; [done | lia].
Qed.

(** X4. After n data writes from the initial state, with idle instants
    anywhere between them and no flush or command: exactly n / 320
    transfers were started, each of a full row of 320 bytes, and n mod 320
    bytes are pending. In particular a multiple of 320 words leaves nothing
    pending. *)
Theorem full_rows_are_handed_over :
  ∀ (lat : list nat) (ops : list op),
    forallb is_flush_free ops = true →
    ∃ s, run ops (initial lat) = Some s ∧
      Z.of_nat (length (dma_transfers (log s))) =
        Z.of_nat (length (data_words ops)) / SCREEN_DATA_BUFFER_SIZE ∧
      Forall (λ t : Z * list Z * Z, t.2 = SCREEN_DATA_BUFFER_SIZE)
             (dma_transfers (log s)) ∧
      active_buffer_offset s =
        Z.of_nat (length (data_words ops)) mod SCREEN_DATA_BUFFER_SIZE.
Proof.
  intros lat ops Hfree.
  destruct (data_run ops (initial lat)) as (s & ts & Hrun & Hs & Ht & Hfull & Hcount);
    [apply initial_inv | done |].
  exists s. split; [done |]. cbn in Ht. rewrite Ht.
  destruct Hs as (_ & _ & Hoff). unfold SCREEN_DATA_BUFFER_SIZE in *.
  change (active_buffer_offset (initial lat)) with 0 in Hcount.
  split; [| split; [done |]].
  - apply (Z.div_unique_pos _ 320 _ (active_buffer_offset s)); lia.
  - apply (Z.mod_unique_pos _ 320 (Z.of_nat (length ts))); lia.
Qed.

(** X4 for two full rows and seven words more. *)
Lemma full_rows_are_handed_over_witness :
  forallb is_flush_free (SendDataWord <$> seqZ 0 647) = true ∧
  ∃ s, run (SendDataWord <$> seqZ 0 647) (initial []) = Some s ∧
    Z.of_nat (length (dma_transfers (log s))) =
      Z.of_nat (length (data_words (SendDataWord <$> seqZ 0 647)))
        / SCREEN_DATA_BUFFER_SIZE ∧
    Forall (λ t : Z * list Z * Z, t.2 = SCREEN_DATA_BUFFER_SIZE)
           (dma_transfers (log s)) ∧
    active_buffer_offset s =
      Z.of_nat (length (data_words (SendDataWord <$> seqZ 0 647)))
        mod SCREEN_DATA_BUFFER_SIZE.
Proof.
  split; [vm_compute; reflexivity |].
  apply (full_rows_are_handed_over [] (SendDataWord <$> seqZ 0 647)).
  vm_compute; reflexivity.
Defined.


(** *** The engine, the in-flight index and chip select *)

Lemma tick_engine s i : engine_at s i → engine_at (tick s) i.
Proof.
  intros [Hidle | (j & Hd & Hj & Hidx & Hcs)].
  - left. destruct Hidle as (Hd & ?). by rewrite (tick_idle s Hd).
  - unfold tick. rewrite Hd. destruct (job_left j).
    + left. by repeat split.
    + right. eexists. driver_fields. by repeat split.
Qed.

Lemma record_engine e s i : engine_at s i → engine_at (record e s) i.
Proof. intros [H | H]; [left | right]; exact H. Qed.

Lemma poll_engine n s i : engine_at s i → engine_at (poll n s) i.
Proof.
  revert s. induction n as [|n IH]; intros s Hs; [done |].
  rewrite poll_S.
  destruct (bool_decide _); [apply IH |]; by apply record_engine, tick_engine.
Qed.

Lemma wait_engine s i : engine_at s i → engine_idle (waitForTransferToComplete s).
Proof.
  intros Hs. pose proof (wait_idle s) as Hd.
  apply (poll_engine (S (time_left s))) in Hs.
  fold (waitForTransferToComplete s) in Hs.
  destruct Hs as [? | (j & Hj & _)]; [done |]. by rewrite Hd in Hj.
Qed.

(** After [scheduleTransfer], in any state: the engine owns the row just
    handed over, or has already finished with it. *)
Lemma scheduleTransfer_engine i len s : engine_at (scheduleTransfer i len s) i.
Proof.
  unfold scheduleTransfer, SPI_transfer_dma.
  pose proof (wait_idle s) as Hd. revert Hd.
  generalize (waitForTransferToComplete s). intros w Hd.
  apply tick_engine. right. eexists. driver_fields. rewrite Hd. by repeat split.
Qed.

Lemma second_wait_test s :
  Z.land (active_buffer_idx s + 1) 1 ≠
  dma_buffer_idx (scheduleTransfer (active_buffer_idx s) (active_buffer_offset s) s).
Proof.
  destruct (scheduleTransfer_spec (active_buffer_idx s) (active_buffer_offset s) s)
    as (_ & _ & _ & Hdma & _).
  destruct (next_idx_fresh (active_buffer_idx s)) as [H1 H2].
  cbn zeta in Hdma. destruct Hdma as [-> | ->]; done.
Qed.

Lemma second_wait_eq s :
  active_buffer_offset s ≠ 0 →
  flushData s =
    set_active_buffer_idx (Z.land (active_buffer_idx s + 1) 1)
      (set_active_buffer_offset 0
         (scheduleTransfer (active_buffer_idx s) (active_buffer_offset s) s)).
Proof.
  intros Hz. pose proof (second_wait_test s) as Hne.
  destruct (scheduleTransfer_spec (active_buffer_idx s) (active_buffer_offset s) s)
    as (_ & Hi & _).
  unfold flushData, hasPendingDataToSend. rewrite decide_True by done.
  cbn zeta. cbn zeta in Hi. revert Hi Hne.
  generalize (scheduleTransfer (active_buffer_idx s) (active_buffer_offset s) s).
  intros t Hi Hne. rewrite Hi. by rewrite decide_False.
Qed.

(** X5. The test before the second wait of [flushData] ("is this even
    possible with a 2 line buffer?") is false in every state: once the
    active row is handed over, the in-flight index is that row or -1, never
    the other row. So a flush with bytes pending is the hand-over followed
    by the two assignments, and polls only before the transfer starts. *)
Theorem second_wait_is_never_taken :
  ∀ (s : driver),
    let t := scheduleTransfer (active_buffer_idx s) (active_buffer_offset s) s in
    Z.land (active_buffer_idx s + 1) 1 ≠ dma_buffer_idx t ∧
    (active_buffer_offset s = 0 ∨
     flushData s =
       set_active_buffer_idx (Z.land (active_buffer_idx s + 1) 1)
         (set_active_buffer_offset 0 t)).
Proof.
  intros s t. subst t. split; [apply second_wait_test |].
  destruct (decide (active_buffer_offset s = 0)) as [Hz | Hz]; [by left | right].
  by apply second_wait_eq.
Qed.

Lemma flushData_engine s : engine_ok s → engine_ok (flushData s).
Proof.
  intros Hs.
  destruct (flushData_cases s) as (_ & _ & [[_ ->] | (Hnz & Hi & _)]); [done |].
  pose proof (scheduleTransfer_engine (active_buffer_idx s)
                (active_buffer_offset s) s) as Ht.
  pose proof (second_wait_eq s Hnz) as Heq.
  destruct (next_idx_fresh (active_buffer_idx s)) as [Hfresh _].
  rewrite Heq. revert Ht.
  generalize (scheduleTransfer (active_buffer_idx s) (active_buffer_offset s) s).
  intros t [Hidle | Hbusy]; [by left | right].
  exists (active_buffer_idx s). split; [exact Hbusy |]. driver_fields. done.
Qed.


Lemma engine_ok_at s : engine_ok s → ∃ i, engine_at s i.
Proof.
  intros [H | (i & H & _)]; [exists 0; by left | exists i; by right].
Qed.

Lemma send_data_engine value s s' :
  D4DLCDHW_SendDataWord_Spi_Spark_8b value s = Some s' →
  engine_ok s → engine_ok s'.
Proof.
  unfold D4DLCDHW_SendDataWord_Spi_Spark_8b, store_word.
  destruct (decide _); [| done]. cbn. intros [= <-] Hs.
  destruct (decide _); [apply flushData_engine |]; exact Hs.
Qed.

Lemma send_cmd_engine cmd s :
  engine_ok s → engine_idle (D4DLCDHW_SendCmdWord_Spi_Spark_8b cmd s).
Proof.
  intros Hs. apply flushData_engine, engine_ok_at in Hs as [i Hs].
  apply wait_engine in Hs. unfold D4DLCDHW_SendCmdWord_Spi_Spark_8b. cbn zeta.
  revert Hs. generalize (waitForTransferToComplete (flushData s)).
  intros w (Hd & Hidx & _). by repeat split.
Qed.

Lemma step_engine o s s' : engine_ok s → step o s = Some s' → engine_ok s'.
Proof.
  intros Hs Hstep. destruct o as [value | cmd | mode |]; cbn [step] in Hstep.
  - by eapply send_data_engine.
  - injection Hstep as <-. left. by apply send_cmd_engine.
  - injection Hstep as <-. rewrite flush_buffer_eq. by apply flushData_engine.
  - injection Hstep as <-.
    destruct (tick_frame s) as (_ & Hi & _).
    destruct Hs as [H | (i & H & Hne)].
    + left. destruct H as (Hd & ?). by rewrite (tick_idle s Hd).
    + destruct (tick_engine s i (or_intror H)) as [H' | H']; [by left | right].
      exists i. split; [done | by rewrite Hi].
Qed.

Lemma run_engine lat ops :
  ∃ s, run ops (initial lat) = Some s ∧ inv s ∧ engine_ok s.
Proof.
  apply (run_preserves engine_ok).
  - intros o s s' _. apply step_engine.
  - apply initial_inv.
  - left. by repeat split.
Qed.

(** X6. Between operations the driver's view agrees with the hardware, in
    every run and for all transfer durations: either the engine is idle,
    the in-flight index is -1 and chip select is high; or the engine owns
    exactly one row, the in-flight index names it, chip select is low, and
    that row is not the active row, the one data writes store into. *)
Theorem inflight_row_is_not_active :
  ∀ (lat : list nat) (ops : list op),
    ∃ s, run ops (initial lat) = Some s ∧
      ((dma s = [] ∧ dma_buffer_idx s = -1 ∧ cs s = HIGH) ∨
       (∃ j, dma s = [j] ∧ dma_buffer_idx s = job_buffer j ∧ cs s = LOW ∧
             job_buffer j ≠ active_buffer_idx s)).
Proof.
  intros lat ops. destruct (run_engine lat ops) as (s & Hrun & _ & Hs).
  exists s. split; [done |].
  destruct Hs as [H | (i & (j & Hd & Hj & Hidx & Hcs) & Hne)]; [by left | right].
  exists j. rewrite Hj. done.
Qed.

(** An operation changes no row but the active one. *)
Lemma step_rows o s s' i :
  sw_ok s → step o s = Some s' → i ≠ active_buffer_idx s →
  buffer_at s' i = buffer_at s i.
Proof.
  intros (_ & Hidx & _) Hstep Hne. unfold buffer_at.
  destruct (decide (0 ≤ i)) as [Hi | ?]; [| done].
  destruct o as [value | cmd | mode |]; cbn [step] in Hstep.
  - revert Hstep. unfold D4DLCDHW_SendDataWord_Spi_Spark_8b, store_word.
    destruct (decide _); [| done]. cbn [mbind option_bind]. intros [= <-].
    match goal with
    | |- context [if ?c then flushData ?x else _] =>
        assert (Hb : tx_buffer (if c then flushData x else x) = tx_buffer x)
          by (destruct c; [apply flushData_cases | done])
    end.
    rewrite Hb. driver_fields. apply list_lookup_alter_ne. lia.
  - injection Hstep as <-. by destruct (send_cmd_frame cmd s) as (-> & _).
  - injection Hstep as <-. rewrite flush_buffer_eq.
    by destruct (flushData_cases s) as (-> & _).
  - injection Hstep as <-. by destruct (tick_frame s) as (-> & _).
Qed.

(** X7. No operation writes into a row the engine is reading: whatever the
    driver is asked next, in any state it can be in, each row owned by the
    engine before the operation holds the same bytes after it. *)
Theorem inflight_row_is_not_written :
  ∀ (lat : list nat) (ops : list op) (o : op),
    ∃ s s', run ops (initial lat) = Some s ∧ step o s = Some s' ∧
      ∀ j, j ∈ dma s → buffer_at s' (job_buffer j) = buffer_at s (job_buffer j).
Proof.
  intros lat ops o. destruct (run_engine lat ops) as (s & Hrun & Hinv & Hs).
  destruct (step_inv o s Hinv) as (s' & Hstep & _).
  exists s, s'. split; [done |]. split; [done |]. intros j Hj.
  apply (step_rows o); [apply Hinv | done |].
  destruct Hs as [(Hd & _) | (i & (j' & Hd & Hj' & _) & Hne)].
  - rewrite Hd in Hj. by apply elem_of_nil in Hj.
  - rewrite Hd in Hj. apply list_elem_of_singleton in Hj as ->. by rewrite Hj'.
Qed.

(** X8. A flush right after a flush or after a command write does nothing
    at all: the state is the same, so no poll, no pin write and no transfer
    is added to the log. *)
Theorem repeated_flush_is_silent :
  ∀ (s : driver) (m m' : D4DLCD_FLUSH_MODE) (cmd : Z),
    D4DLCD_FlushBuffer_Spi_Spark_8b m (D4DLCD_FlushBuffer_Spi_Spark_8b m' s) =
      D4DLCD_FlushBuffer_Spi_Spark_8b m' s ∧
    D4DLCD_FlushBuffer_Spi_Spark_8b m (D4DLCDHW_SendCmdWord_Spi_Spark_8b cmd s) =
      D4DLCDHW_SendCmdWord_Spi_Spark_8b cmd s.
Proof.
  intros s m m' cmd. rewrite !flush_buffer_eq. split.
  - apply flushData_empty, flushData_offset.
  - apply flushData_empty. by destruct (send_cmd_frame cmd s) as (_ & _ & ? & _).
Qed.

End LcdMore.

(* ===================================================================== *)
(** ** Further properties of the bus arbiter *)
(* ===================================================================== *)

Module ArbiterMore.
Import Arbiter ArbiterSpec.

Lemma apply_in_sync c a : in_sync a → in_sync (apply c a).
Proof.
  unfold in_sync. intros Ha.
  destruct (apply_stored c a) as (-> & -> & -> & _).
  apply apply_peripheral; by rewrite Ha.
Qed.

Lemma apply_all_in_sync cs a : in_sync a → in_sync (apply_all cs a).
Proof.
  revert a. induction cs as [|c cs IH]; intros a Ha; [done |].
  apply IH. by apply apply_in_sync.
Qed.

(** X9. After any run of accesses from the initial arbiter, the electrical
    side is that of the client served last: the stored mode, bit order and
    clock divider and the registers of the peripheral are the ones it
    declares, whichever of them the earlier clients had changed, and its
    select line is asserted. *)
Theorem last_client_configures_bus :
  ∀ (m : Z) (b : bit_order) (d : Z) (cs : list SPIConfiguration)
    (c : SPIConfiguration),
    let a := apply_all (cs ++ [c]) (initial m b d) in
    mode_ a = getMode c ∧ bitOrder_ a = getBitOrder c ∧
    clockDivider_ a = getClockDivider c ∧
    spi_ a = {| dataMode := getMode c; bitOrder := getBitOrder c;
                clockDivider := getClockDivider c |} ∧
    asserted a (getSSPin c).
Proof.
  intros m b d cs c a. subst a. unfold apply_all. rewrite foldl_app. cbn [foldl].
  fold (apply_all cs (initial m b d)).
  assert (Hsync : in_sync (apply_all cs (initial m b d)))
    by (by apply apply_all_in_sync).
  pose proof (apply_in_sync c _ Hsync) as Hsync'. unfold in_sync in Hsync'.
  destruct (apply_stored c (apply_all cs (initial m b d))) as (Hm & Hb & Hd & _).
  rewrite Hsync', Hm, Hb, Hd. repeat split. apply apply_asserts.
Qed.

End ArbiterMore.

(* ===================================================================== *)
(** ** Properties of the temperature sensor wrapper *)
(* ===================================================================== *)

Module SensorSpec.
Import Sensor.

Lemma uninstall_default t :
  sensor t = defaultTempSensorBasic → uninstallSensor t = Some (false, t).
Proof. intros H. unfold uninstallSensor. by rewrite decide_True. Qed.

Lemma uninstall_heap t addr :
  sensor t = heap_sensor addr → addr ∈ live t →
  uninstallSensor t =
    Some (true, {| sensor := defaultTempSensorBasic;
                   live := live t ∖ {[addr]} |}).
Proof.
  intros Hs Hl. unfold uninstallSensor, delete. rewrite Hs.
  rewrite decide_False by done. by rewrite decide_True.
Qed.

Lemma uninstall_dangling t addr :
  sensor t = heap_sensor addr → addr ∉ live t → uninstallSensor t = None.
Proof.
  intros Hs Hl. unfold uninstallSensor, delete. rewrite Hs.
  rewrite decide_False by done. by rewrite decide_False.
Qed.

(** X10. Uninstalling from a wrapper that points at the default sensor or
    at a live heap sensor: the call is defined; it returns false exactly
    when the sensor was the default one, and then changes nothing;
    otherwise it deletes the sensor, that one object and no other, and the
    wrapper points at the default sensor. Either way the wrapper ends on
    the default sensor, and a second call returns false and changes
    nothing. *)
Theorem uninstall_returns_to_default :
  ∀ (t : TempSensor),
    sound t →
    ∃ r t',
      uninstallSensor t = Some (r, t') ∧
      (r = false ↔ sensor t = defaultTempSensorBasic) ∧
      (r = false → t' = t) ∧
      getSensor t' = defaultTempSensorBasic ∧
      live t' = live t ∖ owned (sensor t) ∧
      uninstallSensor t' = Some (false, t').
Proof.
  intros t Ht. unfold sound in Ht. destruct t as [[|addr] h]; cbn in *.
  - exists false, {| sensor := defaultTempSensorBasic; live := h |}.
    rewrite uninstall_default by done. repeat split; try done. set_solver.
  - rewrite (uninstall_heap _ addr) by (done || set_solver).
    eexists _, _. split; [done |]. cbn.
    repeat split; done.
Qed.

Lemma uninstall_returns_to_default_witness :
  sound {| sensor := heap_sensor 1; live := {[1%nat; 2%nat]} |} ∧
  ∃ r t',
    uninstallSensor {| sensor := heap_sensor 1; live := {[1%nat; 2%nat]} |}
      = Some (r, t') ∧
    (r = false ↔ heap_sensor 1 = defaultTempSensorBasic) ∧
    (r = false → t' = {| sensor := heap_sensor 1; live := {[1%nat; 2%nat]} |}) ∧
    getSensor t' = defaultTempSensorBasic ∧
    live t' = ({[1%nat; 2%nat]} : gset nat) ∖ owned (heap_sensor 1) ∧
    uninstallSensor t' = Some (false, t').
Proof.
  assert (Hs : sound {| sensor := heap_sensor 1; live := {[1%nat; 2%nat]} |})
    by (unfold sound; cbn; set_solver).
  split; [exact Hs |].
  exact (uninstall_returns_to_default _ Hs).
Defined.

(** X11. Installing a sensor other than the one installed, on a wrapper
    that points at the default sensor or at a live heap sensor: the call is
    defined; the wrapper then points at the new sensor; the sensor
    installed before, if it was on the heap, has been deleted, that one
    object and no other, and the default sensor is never deleted; a new
    sensor that was live is still live. *)
Theorem install_replaces_sensor :
  ∀ (t : TempSensor) (s : sensor_ptr),
    sound t → s ≠ sensor t →
    ∃ t',
      installSensor s t = Some t' ∧
      getSensor t' = s ∧
      live t' = live t ∖ owned (sensor t) ∧
      (owned s ⊆ live t → sound t').
Proof.
  intros t s Ht Hne. unfold sound in Ht. unfold installSensor.
  destruct t as [[|addr] h]; cbn in *.
  - rewrite uninstall_default by done. cbn.
    eexists. split; [done |]. cbn. repeat split; [set_solver | done].
  - rewrite (uninstall_heap _ addr) by (done || set_solver). cbn.
    eexists. split; [done |]. unfold sound. cbn. repeat split.
    intros Hs. destruct s as [|a]; cbn in *; [set_solver |].
    assert (a ≠ addr) by congruence. set_solver.
Qed.

Lemma install_replaces_sensor_witness :
  sound {| sensor := heap_sensor 1; live := {[1%nat; 2%nat]} |} ∧
  heap_sensor 2 ≠ heap_sensor 1 ∧
  ∃ t',
    installSensor (heap_sensor 2)
      {| sensor := heap_sensor 1; live := {[1%nat; 2%nat]} |} = Some t' ∧
    getSensor t' = heap_sensor 2 ∧
    live t' = ({[1%nat; 2%nat]} : gset nat) ∖ owned (heap_sensor 1) ∧
    (owned (heap_sensor 2) ⊆ ({[1%nat; 2%nat]} : gset nat) → sound t').
Proof.
  assert (Hs : sound {| sensor := heap_sensor 1; live := {[1%nat; 2%nat]} |})
    by (unfold sound; cbn; set_solver).
  assert (Hne : heap_sensor 2 ≠ heap_sensor 1) by discriminate.
  split; [exact Hs |]. split; [exact Hne |].
  exact (install_replaces_sensor _ (heap_sensor 2) Hs Hne).
Defined.

(** X12. Installing again the heap sensor that is installed: the call
    deletes it first and then stores its address, so the wrapper points at
    an object that is no longer live; the next uninstall, and so the next
    install of anything, deletes it a second time, which is not defined. *)
Theorem reinstall_leaves_dangling_sensor :
  ∀ (t : TempSensor) (addr : nat),
    sensor t = heap_sensor addr → addr ∈ live t →
    ∃ t',
      installSensor (heap_sensor addr) t = Some t' ∧
      getSensor t' = heap_sensor addr ∧
      (addr ∉ live t') ∧ (¬ sound t') ∧
      uninstallSensor t' = None ∧
      ∀ s, installSensor s t' = None.
Proof.
  intros t addr Hs Hl. unfold installSensor.
  rewrite (uninstall_heap t addr) by done. cbn.
  exists {| sensor := heap_sensor addr; live := live t ∖ {[addr]} |}.
  split; [done |]. cbn.
  assert (Hgone : addr ∉ live t ∖ {[addr]}) by set_solver.
  assert (Hun : uninstallSensor
                  {| sensor := heap_sensor addr; live := live t ∖ {[addr]} |}
                = None)
    by (by apply (uninstall_dangling _ addr)).
  repeat split; try done.
  - unfold sound. cbn. set_solver.
  - intros s. unfold installSensor. by rewrite Hun.
Qed.

Lemma reinstall_leaves_dangling_sensor_witness :
  sensor {| sensor := heap_sensor 1; live := {[1%nat; 2%nat]} |} = heap_sensor 1 ∧
  1%nat ∈ live {| sensor := heap_sensor 1; live := {[1%nat; 2%nat]} |} ∧
  ∃ t',
    installSensor (heap_sensor 1)
      {| sensor := heap_sensor 1; live := {[1%nat; 2%nat]} |} = Some t' ∧
    getSensor t' = heap_sensor 1 ∧
    (1%nat ∉ live t') ∧ (¬ sound t') ∧
    uninstallSensor t' = None ∧
    ∀ s, installSensor s t' = None.
Proof.
  assert (Hl : 1%nat ∈ live {| sensor := heap_sensor 1; live := {[1%nat; 2%nat]} |})
    by (cbn; set_solver).
  split; [reflexivity |]. split; [exact Hl |].
  exact (reinstall_leaves_dangling_sensor
           {| sensor := heap_sensor 1; live := {[1%nat; 2%nat]} |} 1%nat eq_refl Hl).
Defined.

End SensorSpec.

(* ===================================================================== *)
(** ** Properties of the valve controller *)
(* ===================================================================== *)

Module ValveSpec.
Import Valve.

(** Bits of a conversion to [uint8_t] and of a two-bit mask. *)
Lemma uint8_bit x (i : Z) :
  Z.testbit (uint8 x) i = Z.testbit x i && (i <? 8).
Proof.
  unfold uint8. change 256 with (2 ^ 8).
  rewrite Z.testbit_mod_pow2 by lia. apply andb_comm.
Qed.

Lemma mask2_bit x (k : nat) :
  Z.testbit (Z.land x 3) (Z.of_nat k) = Z.testbit x (Z.of_nat k) && (Z.of_nat k <? 2).
Proof.
  change 3 with (Z.ones 2). rewrite Z.land_spec.
  by rewrite Z.testbit_ones_nonneg by lia.
Qed.

Lemma field_bit x n (k : nat) :
  0 ≤ n →
  Z.testbit (uint8 (Z.land (Z.shiftr x n) 3)) (Z.of_nat k) =
    (Z.of_nat k <? 2) && Z.testbit x (Z.of_nat k + n).
Proof.
  intros Hn. rewrite uint8_bit, mask2_bit, Z.shiftr_spec by lia.
  destruct (Z.ltb_spec (Z.of_nat k) 2), (Z.ltb_spec (Z.of_nat k) 8);
    rewrite ?andb_true_r, ?andb_false_r; try done; lia.
Qed.

Lemma getState_bit v (k : nat) :
  Z.testbit (getState v) (Z.of_nat k) =
    (Z.of_nat k <? 2) && Z.testbit (pios (device v)) (Z.of_nat k + nibble v).
Proof.
  unfold getState, nibble, readPios. cbn zeta. destruct (decide (output v = 1)).
  - rewrite uint8_bit, mask2_bit, uint8_bit, Z.shiftr_spec by lia.
    destruct (Z.ltb_spec (Z.of_nat k) 2), (Z.ltb_spec (Z.of_nat k) 8);
      rewrite ?andb_true_r, ?andb_false_r; try done; lia.
  - rewrite <- (Z.shiftr_0_r (pios (device v))) at 1. by apply field_bit.
Qed.

Lemma getAction_bit v (k : nat) :
  Z.testbit (getAction v) (Z.of_nat k) =
    (Z.of_nat k <? 2) &&
    Z.testbit (latches (device v)) (Z.of_nat k + 2 + nibble v).
Proof.
  unfold getAction, nibble, readLatches. cbn zeta. destruct (decide (output v = 1)).
  - rewrite field_bit, uint8_bit, Z.shiftr_spec by lia.
    replace (Z.of_nat k + 2 + 4) with (Z.of_nat k + 4 + 2) by lia.
    destruct (Z.ltb_spec (Z.of_nat k) 2), (Z.ltb_spec (Z.of_nat k + 2) 8);
      rewrite ?andb_true_r, ?andb_false_r; try done; lia.
  - rewrite field_bit by lia. by rewrite Z.add_0_r.
Qed.

Lemma two_bits_range x : 0 ≤ uint8 (Z.land x 3) < 4.
Proof.
  unfold uint8. change 3 with (Z.ones 2). rewrite Z.land_ones by lia.
  pose proof (Z.mod_pos_bound x (2 ^ 2) eq_refl) as H. change (2 ^ 2) with 4 in *.
  rewrite Z.mod_small; lia.
Qed.

Lemma getState_range v : 0 ≤ getState v < 4.
Proof. apply two_bits_range. Qed.

Lemma getAction_range v : 0 ≤ getAction v < 4.
Proof. apply two_bits_range. Qed.

Lemma getters_bits v :
  Z.testbit (getState v) 0 = Z.testbit (pios (device v)) (nibble v) ∧
  Z.testbit (getState v) 1 = Z.testbit (pios (device v)) (nibble v + 1) ∧
  Z.testbit (getAction v) 0 = Z.testbit (latches (device v)) (nibble v + 2) ∧
  Z.testbit (getAction v) 1 = Z.testbit (latches (device v)) (nibble v + 3).
Proof.
  pose proof (getState_bit v 0) as S0. pose proof (getState_bit v 1) as S1.
  pose proof (getAction_bit v 0) as A0. pose proof (getAction_bit v 1) as A1.
  change (Z.of_nat 0) with 0 in *. change (Z.of_nat 1) with 1 in *.
  change (0 <? 2) with true in *. change (1 <? 2) with true in *.
  cbn [andb] in *.
  rewrite S0, S1, A0, A1. repeat split; f_equal; lia.
Qed.

(** X13. The two getters decode the bit layout the class documents. The
    state of a valve is the two-bit number made of bits 1-0 of the pin
    byte for the valve on the lower bits and of bits 5-4 for the one on the
    upper bits; its action is the two-bit number made of bits 3-2 of the
    latch byte, or of bits 7-6. Both results are below 4. An [output] other
    than 1 selects the lower bits. *)
Theorem getters_decode_documented_bits :
  ∀ (v : ValveController),
    0 ≤ getState v < 4 ∧ 0 ≤ getAction v < 4 ∧
    Z.testbit (getState v) 0 = Z.testbit (pios (device v)) (nibble v) ∧
    Z.testbit (getState v) 1 = Z.testbit (pios (device v)) (nibble v + 1) ∧
    Z.testbit (getAction v) 0 = Z.testbit (latches (device v)) (nibble v + 2) ∧
    Z.testbit (getAction v) 1 = Z.testbit (latches (device v)) (nibble v + 3) ∧
    (nibble v = 4 ↔ output v = 1) ∧ (nibble v = 0 ↔ output v ≠ 1).
Proof.
  intros v.
  split; [apply getState_range |]. split; [apply getAction_range |].
  destruct (getters_bits v) as (S0 & S1 & A0 & A1).
  split; [done |]. split; [done |]. split; [done |]. split; [done |].
  unfold nibble. destruct (decide (output v = 1)); split; split; (done || lia).
Qed.

(** A two-bit number is given by its two bits. *)
Lemma two_bits_eq a b :
  0 ≤ a < 4 → 0 ≤ b < 4 →
  Z.testbit a 0 = Z.testbit b 0 → Z.testbit a 1 = Z.testbit b 1 → a = b.
Proof.
  intros Ha Hb.
  assert (a = 0 ∨ a = 1 ∨ a = 2 ∨ a = 3) as [-> | [-> | [-> | ->]]] by lia;
  assert (b = 0 ∨ b = 1 ∨ b = 2 ∨ b = 3) as [-> | [-> | [-> | ->]]] by lia;
  cbn; congruence.
Qed.

(** X14. The two valves of one device do not disturb each other: if two
    devices agree on the four bits of a valve's nibble, in the pin byte and
    in the latch byte, the valve reports the same state, the same action
    and the same activity on both, whatever the other four bits are. *)
Theorem valves_are_independent :
  ∀ (d d' : DS2408) (o : Z),
    let v := {| device := d; output := o |} in
    let v' := {| device := d'; output := o |} in
    (∀ k : nat, (k < 4)%nat →
       Z.testbit (pios d) (nibble v + Z.of_nat k) =
         Z.testbit (pios d') (nibble v + Z.of_nat k) ∧
       Z.testbit (latches d) (nibble v + Z.of_nat k) =
         Z.testbit (latches d') (nibble v + Z.of_nat k)) →
    getState v = getState v' ∧ getAction v = getAction v' ∧
    isActive v = isActive v'.
Proof.
  intros d d' o v v' Hbits.
  assert (Hn : nibble v' = nibble v) by reflexivity.
  destruct (getters_bits v) as (S0 & S1 & A0 & A1).
  destruct (getters_bits v') as (S0' & S1' & A0' & A1').
  rewrite Hn in S0', S1', A0', A1'.
  change (device v) with d in *. change (device v') with d' in *.
  destruct (Hbits 0%nat ltac:(lia)) as [P0 _].
  destruct (Hbits 1%nat ltac:(lia)) as [P1 _].
  destruct (Hbits 2%nat ltac:(lia)) as [_ L2].
  destruct (Hbits 3%nat ltac:(lia)) as [_ L3].
  change (Z.of_nat 0) with 0 in P0. change (Z.of_nat 1) with 1 in P1.
  change (Z.of_nat 2) with 2 in L2. change (Z.of_nat 3) with 3 in L3.
  rewrite Z.add_0_r in P0.
  assert (HS : getState v = getState v').
  { apply two_bits_eq; try apply getState_range; congruence. }
  assert (HA : getAction v = getAction v').
  { apply two_bits_eq; try apply getAction_range; congruence. }
  split; [done |]. split; [done |]. unfold isActive. by rewrite HA.
Qed.

(** X14 for two devices that differ in the upper four bits only, seen from
    the valve on the lower bits. *)
Lemma valves_are_independent_witness :
  (∀ k : nat, (k < 4)%nat →
     Z.testbit (pios {| pios := 37; latches := 75 |})
               (nibble {| device := {| pios := 37; latches := 75 |}; output := 0 |}
                + Z.of_nat k) =
       Z.testbit (pios {| pios := 245; latches := 155 |})
                 (nibble {| device := {| pios := 37; latches := 75 |}; output := 0 |}
                  + Z.of_nat k) ∧
     Z.testbit (latches {| pios := 37; latches := 75 |})
               (nibble {| device := {| pios := 37; latches := 75 |}; output := 0 |}
                + Z.of_nat k) =
       Z.testbit (latches {| pios := 245; latches := 155 |})
                 (nibble {| device := {| pios := 37; latches := 75 |}; output := 0 |}
                  + Z.of_nat k)) ∧
  getState {| device := {| pios := 37; latches := 75 |}; output := 0 |} =
    getState {| device := {| pios := 245; latches := 155 |}; output := 0 |} ∧
  getAction {| device := {| pios := 37; latches := 75 |}; output := 0 |} =
    getAction {| device := {| pios := 245; latches := 155 |}; output := 0 |} ∧
  isActive {| device := {| pios := 37; latches := 75 |}; output := 0 |} =
    isActive {| device := {| pios := 245; latches := 155 |}; output := 0 |}.
Proof.
  match goal with |- ?H ∧ _ => assert (Hbits : H) end.
  { intros [|[|[|[|k]]]] Hk; try (split; reflexivity). lia. }
  split; [exact Hbits |].
  exact (valves_are_independent {| pios := 37; latches := 75 |}
           {| pios := 245; latches := 155 |} 0 Hbits).
Defined.

(** X15. [read] packs the action above the state and loses nothing: the
    value returned is 4 times the action plus the state of the valve as it
    is after the optional update, it is below 16, and shifting it right by
    two gives the action back and masking it with 3 the state. *)
Theorem read_packs_action_and_state :
  ∀ (update : ValveController → ValveController) (doUpdate : bool)
    (v : ValveController),
    let r := read update doUpdate v in
    let v' := if doUpdate then update v else v in
    r.2 = v' ∧
    r.1 = 4 * getAction v' + getState v' ∧
    0 ≤ r.1 < 16 ∧
    Z.shiftr r.1 2 = getAction v' ∧
    Z.land r.1 3 = getState v'.
Proof.
  intros update doUpdate v r v'. subst r. unfold read. cbn zeta. fold v'.
  cbn [fst snd]. split; [done |].
  pose proof (getAction_range v') as Ha. pose proof (getState_range v') as Hs.
  revert Ha Hs. generalize (getAction v'), (getState v'). intros a s Ha Hs.
  assert (a = 0 ∨ a = 1 ∨ a = 2 ∨ a = 3) as [-> | [-> | [-> | ->]]] by lia;
  assert (s = 0 ∨ s = 1 ∨ s = 2 ∨ s = 3) as [-> | [-> | [-> | ->]]] by lia;
  vm_compute; repeat split; congruence.
Qed.

(** X16. [isActive] looks at the motor latches only: it is false exactly
    when the two action bits of the valve's nibble read 10 (closing), that
    is bit 3 set and bit 2 clear, or bits 7 and 6 for the valve on the
    upper bits. With the motor idle (11 or 00) or opening (01) it is true,
    whatever the feedback switches say. *)
Theorem isActive_is_not_closing :
  ∀ (v : ValveController),
    isActive v = false ↔
    Z.testbit (latches (device v)) (nibble v + 3) = true ∧
    Z.testbit (latches (device v)) (nibble v + 2) = false.
Proof.
  intros v. destruct (getters_bits v) as (_ & _ & A0 & A1).
  rewrite <- A0, <- A1. unfold isActive, VALVE_CLOSING.
  rewrite bool_decide_eq_false.
  pose proof (getAction_range v) as Ha. revert Ha.
  generalize (getAction v). intros a Ha.
  assert (a = 0 ∨ a = 1 ∨ a = 2 ∨ a = 3) as [-> | [-> | [-> | ->]]] by lia;
    cbn; split; (intros [? ?] || intros ?); (done || lia || (split; done)).
Qed.

End ValveSpec.

(* ===================================================================== *)
(** ** Chip select over a run of the display driver *)
(* ===================================================================== *)

Module LcdSelect.
Import Lcd LcdSpec LcdMore.


Lemma cs_trace_app l k : cs_trace (l ++ k) = cs_trace l ++ cs_trace k.
Proof. apply omap_app. Qed.

Lemma selects_ext s s' i :
  dma s' = dma s → dma_buffer_idx s' = dma_buffer_idx s → cs s' = cs s →
  log s' = log s → selects s i → selects s' i.
Proof.
  unfold selects, engine_at, engine_idle, engine_busy_with.
  by intros -> -> -> ->.
Qed.

Lemma tick_selects s i : selects s i → selects (tick s) i.
Proof.
  intros [He Hh]. split; [by apply tick_engine |].
  destruct He as [(Hd & _) | (j & Hd & _ & _ & Hcs)].
  - by rewrite (tick_idle s Hd).
  - unfold tick. rewrite Hd. destruct (job_left j); driver_fields; [| done].
    rewrite <- (assoc_L (++)), cs_trace_app. cbn. rewrite Hcs in Hh.
    apply (cs_history_write _ LOW Hh).
Qed.

Lemma status_selects b s i : selects s i → selects (record (Status b) s) i.
Proof.
  intros [He Hh]. split; [by apply record_engine |].
  driver_fields. rewrite cs_trace_app. cbn. by rewrite app_nil_r.
Qed.

Lemma poll_selects n s i : selects s i → selects (poll n s) i.
Proof.
  revert s. induction n as [|n IH]; intros s Hs; [done |].
  rewrite poll_S.
  destruct (bool_decide _); [apply IH |]; by apply status_selects, tick_selects.
Qed.

Lemma wait_selects s i :
  selects s i →
  engine_idle (waitForTransferToComplete s) ∧
  cs_history (cs_trace (log (waitForTransferToComplete s))) HIGH.
Proof.
  intros Hs. pose proof (wait_engine s i (proj1 Hs)) as Hidle.
  apply (poll_selects (S (time_left s))) in Hs as [_ Hh].
  fold (waitForTransferToComplete s) in Hh.
  split; [done |]. destruct Hidle as (_ & _ & Hcs). by rewrite Hcs in Hh.
Qed.

Lemma scheduleTransfer_selects i len s k :
  selects s k → selects (scheduleTransfer i len s) i.
Proof.
  intros Hs. apply wait_selects in Hs as [(Hd & _) Hh].
  unfold scheduleTransfer, SPI_transfer_dma. revert Hd Hh.
  generalize (waitForTransferToComplete s). intros w Hd Hh.
  apply tick_selects. split.
  - right. eexists. driver_fields. rewrite Hd. by repeat split.
  - driver_fields. rewrite !cs_trace_app. cbn. rewrite app_nil_r.
    apply (cs_history_write _ HIGH Hh).
Qed.

Lemma flushData_selects s k : selects s k → ∃ i, selects (flushData s) i.
Proof.
  intros Hs.
  destruct (decide (active_buffer_offset s = 0)) as [Hz | Hz].
  - exists k. by rewrite flushData_empty.
  - exists (active_buffer_idx s). rewrite (second_wait_eq s Hz).
    pose proof (scheduleTransfer_selects (active_buffer_idx s)
                  (active_buffer_offset s) s k Hs) as Ht.
    revert Ht.
    generalize (scheduleTransfer (active_buffer_idx s) (active_buffer_offset s) s).
    intros t Ht. by apply (selects_ext t).
Qed.

Lemma step_selects o s s' k :
  selects s k → step o s = Some s' → ∃ i, selects s' i.
Proof.
  intros Hs Hstep. destruct o as [value | cmd | mode |]; cbn [step] in Hstep.
  - revert Hstep. unfold D4DLCDHW_SendDataWord_Spi_Spark_8b, store_word.
    destruct (decide _); [| done]. cbn [mbind option_bind]. intros [= <-].
    destruct (decide _); [apply (flushData_selects _ k) | exists k];
      by apply (selects_ext s).
  - injection Hstep as <-.
    destruct (flushData_selects s k Hs) as (i & Hf).
    apply wait_selects in Hf as [(Hd & Hidx & _) Hh].
    unfold D4DLCDHW_SendCmdWord_Spi_Spark_8b. cbn zeta. revert Hd Hidx Hh.
    generalize (waitForTransferToComplete (flushData s)). intros w Hd Hidx Hh.
    exists 0. split; [left; by repeat split |].
    driver_fields. rewrite !cs_trace_app. cbn. rewrite !app_nil_r.
    apply (cs_history_write _ LOW), (cs_history_write _ HIGH), Hh.
  - injection Hstep as <-. rewrite flush_buffer_eq. by eapply flushData_selects.
  - injection Hstep as <-. exists k. by apply tick_selects.
Qed.

(** X17. Over any run from the initial state the writes to chip select
    alternate: the line starts high, every write in the log changes its
    level (low to open a transfer, high to close it, never two asserts or
    two releases in a row), and the level of the line is the one written
    last. *)
Theorem chip_select_writes_alternate :
  ∀ (lat : list nat) (ops : list op),
    ∃ s, run ops (initial lat) = Some s ∧
      cs_history (cs_trace (log s)) (cs s).
Proof.
  intros lat ops.
  destruct (run_preserves (λ s, ∃ i, selects s i))
    with (ops := ops) (s := initial lat) as (s & Hrun & _ & i & _ & Hh).
  - intros o s s' _ [k Hs] Hstep. by eapply step_selects.
  - apply initial_inv.
  - exists 0. split; [left; by repeat split | constructor].
  - by exists s.
Qed.

End LcdSelect.
